(** * Position conversion of the LSP server (internal/lsp/position.go)

    A shallow embedding of the conversion layer between protocol positions
    (0-based line, UTF-16 column) and [token.Pos] values (file base plus byte
    offset), together with the properties its specification states.

    Conventions.
    - Go's [int], [token.Pos] and [rune] are modelled by [Z]; every value the
      code computes is bounded by the document size plus the file base, so no
      machine arithmetic wraps.
    - The fields of [protocol.Position] are [float64] in the source and carry
      integral values; they are modelled by [Z], and [int(x)] / [float64(n)]
      are the identity.
    - A [[]byte] is a [list byte]; slicing is [skipn] / [firstn].
    - Loops run on fuel; [None] stands for "no result" (fuel exhausted, or a
      panic of the position table).  The totality lemmas show that neither
      happens in the functions of this file when called as the source does. *)

From Stdlib Require Import ZArith List Bool Lia Sorted.
From Stdlib.Strings Require Import Byte.
Import ListNotations.
Local Open Scope Z_scope.

(** ** Small prelude: option sequencing and Go slices *)

Notation "x <- a ;; b" :=
  (match a with Some x => b | None => None end)
  (at level 61, a at next level, right associativity).

Definition len {A : Type} (s : list A) : Z := Z.of_nat (length s).

(** [s[i:]] *)
Definition slice_from {A : Type} (i : Z) (s : list A) : list A :=
  skipn (Z.to_nat i) s.

(** [s[:i]] *)
Definition slice_to {A : Type} (i : Z) (s : list A) : list A :=
  firstn (Z.to_nat i) s.

Definition byteZ (b : byte) : Z := Z.of_N (Byte.to_N b).

(** The newline byte ['\n']. *)
Definition NL : byte := x0a.

(** ** Package bytes (Go standard library) *)
Module bytes.

(** [bytes.IndexByte(s, c)]: index of the first [c] in [s], or -1. *)
Fixpoint IndexByte (s : list byte) (c : byte) : Z :=
  match s with
  | [] => -1
  | b :: rest =>
      if Byte.eqb b c then 0
      else let i := IndexByte rest c in
           if i <? 0 then -1 else i + 1
  end.

End bytes.

(** ** Package unicode/utf8 (Go standard library) *)
Module utf8.

Definition RuneError : Z := 0xFFFD.

Definition maskx : Z := 0x3F.
Definition mask2 : Z := 0x1F.
Definition mask3 : Z := 0x0F.
Definition mask4 : Z := 0x07.
Definition locb : Z := 0x80.
Definition hicb : Z := 0xBF.

(** Classification of a first byte, the library's table [first] together with
    [acceptRanges]: ASCII, an invalid first byte, or a multi-byte lead with
    the sequence size and the accepted range of the second byte. *)
Inductive lead : Type :=
| AS
| XX
| Multi (sz : Z) (lo hi : Z).

Definition first (p0 : Z) : lead :=
  if p0 <? 0x80 then AS
  else if p0 <? 0xC2 then XX
  else if p0 <? 0xE0 then Multi 2 locb hicb
  else if p0 =? 0xE0 then Multi 3 0xA0 hicb
  else if p0 <? 0xED then Multi 3 locb hicb
  else if p0 =? 0xED then Multi 3 locb 0x9F
  else if p0 <? 0xF0 then Multi 3 locb hicb
  else if p0 =? 0xF0 then Multi 4 0x90 hicb
  else if p0 <? 0xF4 then Multi 4 locb hicb
  else if p0 =? 0xF4 then Multi 4 locb 0x8F
  else XX.

(** [utf8.DecodeRune(p)]: the first rune of [p] and its width in bytes;
    [(RuneError, 0)] on empty input and [(RuneError, 1)] on an invalid or
    truncated encoding. *)
Definition DecodeRune (p : list byte) : Z * Z :=
  match p with
  | [] => (RuneError, 0)
  | c0 :: p1 =>
      let p0 := byteZ c0 in
      match first p0 with
      | AS => (p0, 1)
      | XX => (RuneError, 1)
      | Multi sz lo hi =>
          if len p <? sz then (RuneError, 1) else
          match p1 with
          | [] => (RuneError, 1)
          | c1 :: p2 =>
              let b1 := byteZ c1 in
              if (b1 <? lo) || (hi <? b1) then (RuneError, 1) else
              if sz <=? 2 then
                (Z.lor (Z.shiftl (Z.land p0 mask2) 6) (Z.land b1 maskx), 2)
              else
              match p2 with
              | [] => (RuneError, 1)
              | c2 :: p3 =>
                  let b2 := byteZ c2 in
                  if (b2 <? locb) || (hicb <? b2) then (RuneError, 1) else
                  if sz <=? 3 then
                    (Z.lor (Z.lor (Z.shiftl (Z.land p0 mask3) 12)
                                  (Z.shiftl (Z.land b1 maskx) 6))
                           (Z.land b2 maskx), 3)
                  else
                  match p3 with
                  | [] => (RuneError, 1)
                  | c3 :: _ =>
                      let b3 := byteZ c3 in
                      if (b3 <? locb) || (hicb <? b3) then (RuneError, 1) else
                      (Z.lor (Z.lor (Z.lor (Z.shiftl (Z.land p0 mask4) 18)
                                           (Z.shiftl (Z.land b1 maskx) 12))
                                    (Z.shiftl (Z.land b2 maskx) 6))
                             (Z.land b3 maskx), 4)
                  end
              end
          end
      end
  end.

End utf8.

(** ** Package go/token (Go standard library) *)
Module token.

(** A [Pos] is the base of its file plus a byte offset; [NoPos] is the zero
    value and means "no position". *)
Definition Pos : Type := Z.
Definition NoPos : Pos := 0.

(** [p.IsValid()] *)
Definition IsValid (p : Pos) : bool := negb (p =? NoPos).

(** [token.Position]: 1-based line and 1-based byte column. *)
Record Position : Type := mkPosition {
  Offset : Z;
  Line : Z;
  Column : Z
}.

(** Modelled from the spec: the document provider's byte-to-line/column
    resolution facility, go/token's [File], which is not part of the source
    tree.  A file has a base (at least 1: a [FileSet] starts its bases at 1),
    a size, and the table of the offsets at which lines start.  Files with
    line directives (alternative position information) are not modelled. *)
Record File : Type := mkFile {
  base : positive;
  size : Z;
  lines : list Z
}.

Definition Base (f : File) : Z := Z.pos (base f).

(** [f.Size()] *)
Definition Size (f : File) : Z := size f.

(** [f.LineCount()] *)
Definition LineCount (f : File) : Z := len (lines f).

(** [f.Pos(offset)]; panics when the offset is beyond the file. *)
Definition FilePos (f : File) (offset : Z) : option Pos :=
  if size f <? offset then None else Some (Base f + offset).

(** Index of the last entry of [a] that is at most [x], or -1: what the
    table's search returns on a sorted table. *)
Fixpoint searchInts (a : list Z) (x : Z) : Z :=
  match a with
  | [] => -1
  | y :: rest => if y <=? x then 1 + searchInts rest x else -1
  end.

(** [f.Position(p)]: the zero [Position] for [NoPos], a panic for a [Pos]
    outside the file, otherwise line and column from the line table. *)
Definition FilePosition (f : File) (p : Pos) : option Position :=
  if p =? NoPos then Some (mkPosition 0 0 0)
  else if (p <? Base f) || (Base f + size f <? p) then None
  else
    let offset := p - Base f in
    let i := searchInts (lines f) offset in
    if 0 <=? i then
      Some (mkPosition offset (i + 1) (offset - nth (Z.to_nat i) (lines f) 0 + 1))
    else Some (mkPosition offset 0 0).

(** The line table a scan of [content] leaves ([AddLine] at every newline
    read): offset 0, and the offset after each newline that is still inside
    the content; a line start equal to the size is not recorded. *)
Fixpoint lineTable (off : Z) (content : list byte) : list Z :=
  match content with
  | [] => []
  | b :: rest =>
      if Byte.eqb b NL then
        match rest with
        | [] => []
        | _ :: _ => (off + 1) :: lineTable (off + 1) rest
        end
      else lineTable (off + 1) rest
  end.

Definition fileOf (b : positive) (content : list byte) : File :=
  mkFile b (len content) (0 :: lineTable 0 content).

End token.

(** ** Package protocol *)
Module protocol.

Record Position : Type := mkPosition {
  Line : Z;
  Character : Z
}.

Definition Position_eqb (p q : Position) : bool :=
  (Line p =? Line q) && (Character p =? Character q).

Record Range : Type := mkRange {
  Start : Position;
  End : Position
}.

End protocol.

(** ** Package source *)
Module source.

Record Range : Type := mkRange {
  Start : token.Pos;
  End : token.Pos
}.

(** Modelled from the spec: the [source.File] interface, whose implementation
    is not part of the source tree; only [GetContent] and [GetToken] are used
    here. *)
Record File : Type := mkFile {
  GetContent : list byte;
  GetToken : token.File
}.

(** The file the document provider hands out for [content]: the content and
    the position table of the same bytes. *)
Definition fileOf (b : positive) (content : list byte) : File :=
  mkFile content (token.fileOf b content).

End source.

(** ** Package lsp: internal/lsp/position.go *)
Module lsp.

(** The first loop of [columnOffset]: drop [line] lines from the front of the
    content.  [inl v] means the function returns [v] from inside the loop,
    [inr content] that the loop is left with [content] remaining. *)
Fixpoint skipLines (fuel : nat) (content : list byte) (line : Z)
  : option (Z + list byte) :=
  match fuel with
  | O => None
  | S fuel' =>
      if 0 <? len content then
        if line =? 0 then Some (inr content)
        else
          let i := bytes.IndexByte content NL in
          if i <? 0 then Some (inl (-1))
          else skipLines fuel' (slice_from (i + 1) content) (line - 1)
      else Some (inr content)
  end.

(** The second loop of [columnOffset]: walk the runes of the window, counting
    UTF-16 units in [char] and bytes in [offset]. *)
Fixpoint scan (fuel : nat) (content : list byte) (char offset character : Z)
  : option Z :=
  match fuel with
  | O => None
  | S fuel' =>
      if 0 <? len content then
        let char := char + 1 in
        let '(r, size) := utf8.DecodeRune content in
        let char := if 0x10000 <=? r then char + 1 else char in
        if character <? char then Some offset
        else scan fuel' (slice_from size content) char (offset + size) character
      else Some (-1)
  end.

(** The window of the column scan: the current line with its newline. *)
Definition window (content : list byte) : list byte :=
  let i := bytes.IndexByte content NL in
  if negb (i =? -1) then slice_to (i + 1) content else content.

Definition columnOffset (content : list byte) (pos : protocol.Position)
  : option Z :=
  r <- skipLines (S (length content)) content (protocol.Line pos) ;;
  match r with
  | inl v => Some v
  | inr content =>
      let content := window content in
      scan (S (length content)) content 0 0 (protocol.Character pos)
  end.

(** The binary search of [lineStart] over the offsets [min, max). *)
Fixpoint lineStart_loop (fuel : nat) (tok : token.File) (line min max : Z)
  : option token.Pos :=
  match fuel with
  | O => None
  | S fuel' =>
      let offset := Z.quot (min + max) 2 in
      pos <- token.FilePos tok offset ;;
      posn <- token.FilePosition tok pos ;;
      if token.Line posn =? line then
        Some (pos - (token.Column posn - 1))
      else if max <=? min + 1 then Some token.NoPos
      else if token.Line posn <? line then
        lineStart_loop fuel' tok line offset max
      else lineStart_loop fuel' tok line min offset
  end.

Definition lineStart (f : source.File) (line : Z) : option token.Pos :=
  let tok := source.GetToken f in
  lineStart_loop (S (Z.to_nat (token.Size tok))) tok line 0 (token.Size tok).

Definition fromProtocolPosition (f : source.File) (pos : protocol.Position)
  : option token.Pos :=
  line <- lineStart f (protocol.Line pos + 1) ;;
  c <- columnOffset (source.GetContent f) pos ;;
  Some (line + c).

Definition toProtocolPosition (f : token.File) (pos : token.Pos)
  : option protocol.Position :=
  if negb (token.IsValid pos) then Some (protocol.mkPosition (-1) (-1))
  else
    p <- token.FilePosition f pos ;;
    Some (protocol.mkPosition (token.Line p - 1) (token.Column p - 1)).

Definition fromTokenPosition (f : source.File) (pos : token.Position)
  : option token.Pos :=
  line <- lineStart f (token.Line pos) ;;
  Some (line + (token.Column pos - 1)).

(** A result together with the number of position conversions (each one runs
    the column scan once) that were made to compute it. *)
Definition counted (A : Type) : Type := (A * nat)%type.

Definition fromProtocolPositionC (f : source.File) (pos : protocol.Position)
  : option (counted token.Pos) :=
  p <- fromProtocolPosition f pos ;; Some (p, 1%nat).

Definition fromProtocolRangeC (f : source.File) (r : protocol.Range)
  : option (counted source.Range) :=
  sn <- fromProtocolPositionC f (protocol.Start r) ;;
  let '(start, n) := sn in
  if protocol.Position_eqb (protocol.End r) (protocol.Start r) then
    Some (source.mkRange start start, n)
  else if protocol.Line (protocol.End r) <? 0 then
    Some (source.mkRange start token.NoPos, n)
  else
    em <- fromProtocolPositionC f (protocol.End r) ;;
    let '(e, m) := em in
    Some (source.mkRange start e, (n + m)%nat).

Definition fromProtocolRange (f : source.File) (r : protocol.Range)
  : option source.Range :=
  option_map fst (fromProtocolRangeC f r).

Definition toProtocolRange (f : token.File) (r : source.Range)
  : option protocol.Range :=
  s <- toProtocolPosition f (source.Start r) ;;
  e <- toProtocolPosition f (source.End r) ;;
  Some (protocol.mkRange s e).

End lsp.

(** ** The documents of the specification's scenarios *)

(** ["abc\ndef\n"] *)
Definition doc_ascii : list byte := [x61; x62; x63; x0a; x64; x65; x66; x0a].

(** ["a" U+1F642 "b\n"], the emoji being the bytes F0 9F 99 82. *)
Definition doc_emoji : list byte := [x61; xf0; x9f; x99; x82; x62; x0a].

(** ["ab\n"] *)
Definition doc_ab : list byte := [x61; x62; x0a].

(** ["ab\ncd\n"] *)
Definition doc_abcd : list byte := [x61; x62; x0a; x63; x64; x0a].

(** ** Vocabulary of the statements *)

(** A line body: no newline in it. *)
Definition nonl (l : list byte) : Prop := ~ In NL l.

(** The text made of the lines [ls], each one closed by a newline. *)
Definition joinLines (ls : list (list byte)) : list byte :=
  concat (map (fun l => l ++ [NL]) ls).

Definition ascii (b : byte) : Prop := byteZ b < 0x80.

(** UTF-16 units of a rune: a surrogate pair from U+10000 on. *)
Definition utf16Units (r : Z) : Z := if 0x10000 <=? r then 2 else 1.

(** UTF-16 length of a byte string, rune by rune as [utf8.DecodeRune] reads
    it. *)
Fixpoint utf16len_loop (fuel : nat) (s : list byte) : Z :=
  match fuel with
  | O => 0
  | S fuel' =>
      match s with
      | [] => 0
      | _ :: _ =>
          let '(r, size) := utf8.DecodeRune s in
          utf16Units r + utf16len_loop fuel' (slice_from size s)
      end
  end.

Definition utf16len (s : list byte) : Z := utf16len_loop (length s) s.

(** Number of newline bytes in a byte string. *)
Definition newlines (s : list byte) : Z :=
  Z.of_nat (count_occ Byte.byte_eq_dec s NL).

(** Number of bytes after the last newline of a byte string (all of them
    when there is none). *)
Definition sinceNewline (s : list byte) : Z :=
  fold_left (fun n b => if Byte.eqb b NL then 0 else n + 1) s 0.

(** [o] is an offset at which a rune of [s] starts, reading [s] from its
    first byte ([off] is the offset of the first byte of [s]). *)
Fixpoint runeStart_loop (fuel : nat) (s : list byte) (off o : Z) : bool :=
  match fuel with
  | O => false
  | S fuel' =>
      if off =? o then true
      else match s with
           | [] => false
           | _ :: _ =>
               let '(_, size) := utf8.DecodeRune s in
               runeStart_loop fuel' (slice_from size s) (off + size) o
           end
  end.

Definition runeStart (s : list byte) (o : Z) : bool :=
  runeStart_loop (S (length s)) s 0 o.

(** * Properties *)

(** ** Slices and lengths *)

Lemma len_nil (A : Type) : len (@nil A) = 0.
Proof. reflexivity. Qed.

Lemma len_cons (A : Type) (x : A) (l : list A) : len (x :: l) = 1 + len l.
Proof. unfold len. cbn [length]. lia. Qed.

Lemma len_app (A : Type) (l1 l2 : list A) : len (l1 ++ l2) = len l1 + len l2.
Proof. unfold len. rewrite length_app. lia. Qed.

Lemma len_nonneg (A : Type) (l : list A) : 0 <= len l.
Proof. unfold len. lia. Qed.

Lemma len_pos (A : Type) (l : list A) : l <> [] -> 0 < len l.
Proof. destruct l; [congruence | rewrite len_cons; pose proof (len_nonneg _ l); lia]. Qed.

Lemma slice_from_app (A : Type) (l1 l2 : list A) :
  slice_from (len l1) (l1 ++ l2) = l2.
Proof.
  unfold slice_from, len. rewrite Nat2Z.id.
  rewrite skipn_app, skipn_all, Nat.sub_diag. reflexivity.
Qed.

Lemma slice_from_line (A : Type) (l : list A) (x : A) (more : list A) :
  slice_from (len l + 1) (l ++ x :: more) = more.
Proof.
  replace (len l + 1) with (len (l ++ [x])) by (rewrite len_app, len_cons, len_nil; lia).
  replace (l ++ x :: more) with ((l ++ [x]) ++ more) by (rewrite <- app_assoc; reflexivity).
  apply slice_from_app.
Qed.

Lemma slice_to_line (A : Type) (l : list A) (x : A) (more : list A) :
  slice_to (len l + 1) (l ++ x :: more) = l ++ [x].
Proof.
  replace (len l + 1) with (len (l ++ [x])) by (rewrite len_app, len_cons, len_nil; lia).
  replace (l ++ x :: more) with ((l ++ [x]) ++ more) by (rewrite <- app_assoc; reflexivity).
  unfold slice_to, len. rewrite Nat2Z.id.
  rewrite firstn_app, firstn_all, Nat.sub_diag. cbn. apply app_nil_r.
Qed.

Lemma slice_from_length (A : Type) (i : Z) (l : list A) :
  0 <= i <= len l -> len (slice_from i l) = len l - i.
Proof.
  intros H. unfold slice_from, len in *. rewrite length_skipn. lia.
Qed.

(** ** bytes.IndexByte *)

Lemma eqb_NL_true (b : byte) : Byte.eqb b NL = true -> b = NL.
Proof. apply Byte.byte_dec_bl. Qed.

Lemma IndexByte_lower (s : list byte) (c : byte) : -1 <= bytes.IndexByte s c.
Proof.
  induction s as [|b s IH]; cbn; [lia|].
  destruct (Byte.eqb b c); [lia|].
  destruct (bytes.IndexByte s c <? 0) eqn:E; [lia|]. apply Z.ltb_ge in E. lia.
Qed.

Lemma IndexByte_absent (s : list byte) (c : byte) :
  ~ In c s -> bytes.IndexByte s c = -1.
Proof.
  induction s as [|b s IH]; cbn; intros H; [reflexivity|].
  destruct (Byte.eqb b c) eqn:E.
  - apply Byte.byte_dec_bl in E. tauto.
  - rewrite IH by tauto. reflexivity.
Qed.

Lemma IndexByte_first (l : list byte) (c : byte) (more : list byte) :
  ~ In c l -> bytes.IndexByte (l ++ c :: more) c = len l.
Proof.
  induction l as [|b l IH]; cbn [app bytes.IndexByte]; intros H.
  - rewrite (Byte.byte_dec_lb eq_refl). reflexivity.
  - destruct (Byte.eqb b c) eqn:E.
    + apply Byte.byte_dec_bl in E. cbn in H. tauto.
    + rewrite IH by (cbn in H; tauto). rewrite len_cons.
      pose proof (len_nonneg _ l).
      destruct (len l <? 0) eqn:E2; [apply Z.ltb_lt in E2; lia | lia].
Qed.

(** Every byte string is a run without newline, followed by nothing or by a
    newline and the rest. *)
Lemma first_line (s : list byte) :
  nonl s \/ exists l more, s = l ++ NL :: more /\ nonl l.
Proof.
  induction s as [|b s IH].
  - left. intros [].
  - destruct (Byte.byte_eq_dec b NL) as [->|Hb].
    + right. exists [], s. split; [reflexivity | intros []].
    + destruct IH as [IH | (l & more & -> & Hl)].
      * left. intros [H|H]; [congruence | exact (IH H)].
      * right. exists (b :: l), more. split; [reflexivity|].
        intros [H|H]; [congruence | exact (Hl H)].
Qed.

(** ** Lines of a text *)

Lemma joinLines_cons (l : list byte) (ls : list (list byte)) :
  joinLines (l :: ls) = l ++ NL :: joinLines ls.
Proof. unfold joinLines. cbn. rewrite <- app_assoc. reflexivity. Qed.

Lemma joinLines_cons_app (l : list byte) (ls : list (list byte)) (rest : list byte) :
  joinLines (l :: ls) ++ rest = l ++ NL :: (joinLines ls ++ rest).
Proof. rewrite joinLines_cons, <- app_assoc. reflexivity. Qed.

Lemma nonl_cons (b : byte) (l : list byte) : nonl (b :: l) -> b <> NL /\ nonl l.
Proof. unfold nonl. cbn. intros H. split; [intros ->; tauto | tauto]. Qed.

Lemma eqb_NL_false (b : byte) : b <> NL -> Byte.eqb b NL = false.
Proof.
  intros H. destruct (Byte.eqb b NL) eqn:E; [|reflexivity].
  apply Byte.byte_dec_bl in E. contradiction.
Qed.

(** ** The line table *)

Lemma lineTable_above (s : list byte) :
  forall off, Forall (fun e => off < e) (token.lineTable off s).
Proof.
  induction s as [|b s IH]; intros off; cbn [token.lineTable]; [constructor|].
  assert (Hs : Forall (fun e => off < e) (token.lineTable (off + 1) s)).
  { eapply Forall_impl; [|apply IH]. intros e He; cbv beta in *; lia. }
  destruct (Byte.eqb b NL); [|exact Hs].
  destruct s; constructor; [lia | exact Hs].
Qed.

Lemma lineTable_after_line (l s : list byte) :
  nonl l ->
  forall off, Forall (fun e => off + len l < e) (token.lineTable off (l ++ s)).
Proof.
  induction l as [|b l IH]; intros Hl off.
  - rewrite len_nil, Z.add_0_r. apply lineTable_above.
  - apply nonl_cons in Hl. destruct Hl as [Hb Hl].
    cbn [app token.lineTable]. rewrite (eqb_NL_false _ Hb), len_cons.
    eapply Forall_impl; [|apply (IH Hl (off + 1))]. intros e He; cbv beta in *; lia.
Qed.

Lemma lineTable_line (l more : list byte) (off : Z) :
  nonl l -> more <> [] ->
  token.lineTable off (l ++ NL :: more)
  = (off + len l + 1) :: token.lineTable (off + len l + 1) more.
Proof.
  revert off. induction l as [|b l IH]; intros off Hl Hm.
  - cbn [app token.lineTable]. rewrite (Byte.byte_dec_lb eq_refl), len_nil.
    destruct more; [congruence|].
    replace (off + 0 + 1) with (off + 1) by lia. reflexivity.
  - apply nonl_cons in Hl. destruct Hl as [Hb Hl].
    cbn [app token.lineTable]. rewrite (eqb_NL_false _ Hb), len_cons.
    rewrite IH by assumption.
    replace (off + (1 + len l) + 1) with (off + 1 + len l + 1) by lia.
    reflexivity.
Qed.

(** ** Search in the line table *)

Lemma searchInts_lower (a : list Z) (x : Z) : -1 <= token.searchInts a x.
Proof.
  induction a as [|y a IH]; cbn [token.searchInts]; [lia|].
  destruct (y <=? x); lia.
Qed.

Lemma searchInts_upper (a : list Z) (x : Z) : token.searchInts a x < len a.
Proof.
  induction a as [|y a IH]; cbn [token.searchInts].
  - rewrite len_nil. lia.
  - rewrite len_cons. pose proof (len_nonneg _ a). destruct (y <=? x); lia.
Qed.

Lemma searchInts_mono (a : list Z) (x y : Z) :
  x <= y -> token.searchInts a x <= token.searchInts a y.
Proof.
  intros Hxy. induction a as [|z a IH]; cbn [token.searchInts]; [lia|].
  pose proof (searchInts_lower a y).
  destruct (z <=? x) eqn:E1, (z <=? y) eqn:E2; lia.
Qed.

Lemma searchInts_all_above (a : list Z) (x : Z) :
  Forall (fun e => x < e) a -> token.searchInts a x = -1.
Proof.
  intros H. destruct H as [|y a Hy _]; cbn [token.searchInts]; [reflexivity|].
  destruct (y <=? x) eqn:E; [apply Z.leb_le in E; lia | reflexivity].
Qed.

Lemma searchInts_cons_le (y : Z) (a : list Z) (x : Z) :
  y <= x -> token.searchInts (y :: a) x = 1 + token.searchInts a x.
Proof.
  intros H. cbn [token.searchInts].
  destruct (y <=? x) eqn:E; [reflexivity | apply Z.leb_gt in E; lia].
Qed.

Lemma nth_S_cons (A : Type) (n : nat) (a : A) (r : list A) (d : A) :
  nth (S n) (a :: r) d = nth n r d.
Proof. reflexivity. Qed.

(** The table entry of line [length ls] (0-based) of a text that starts with
    the complete lines [ls]. *)
Lemma lineTable_nth (ls : list (list byte)) (rest : list byte) :
  Forall nonl ls -> rest <> [] ->
  forall off,
    nth (length ls) (off :: token.lineTable off (joinLines ls ++ rest)) 0
    = off + len (joinLines ls).
Proof.
  intros Hls Hrest. induction Hls as [|l ls Hl _ IH]; intros off.
  - cbn. lia.
  - rewrite joinLines_cons_app, lineTable_line; [|assumption|].
    + change (length (l :: ls)) with (S (length ls)).
      rewrite nth_S_cons, IH, joinLines_cons, len_app, len_cons. lia.
    + destruct (joinLines ls); [exact Hrest | discriminate].
Qed.

(** Every offset of line [length ls], up to its newline, is found in entry
    [length ls] of the table. *)
Lemma searchInts_line (ls : list (list byte)) (l1 s : list byte) (j : Z) :
  Forall nonl ls -> nonl l1 -> l1 ++ s <> [] -> 0 <= j <= len l1 ->
  forall off,
    token.searchInts (off :: token.lineTable off (joinLines ls ++ l1 ++ s))
                     (off + len (joinLines ls) + j)
    = len ls.
Proof.
  intros Hls Hl1 Hne Hj. induction Hls as [|l ls Hl _ IH]; intros off.
  - cbn [joinLines map concat app]. rewrite !len_nil.
    rewrite searchInts_cons_le by lia.
    rewrite searchInts_all_above; [reflexivity|].
    eapply Forall_impl; [|apply (lineTable_after_line l1 s Hl1 off)].
    intros e He; cbv beta in *; lia.
  - rewrite joinLines_cons_app, lineTable_line; [|assumption|].
    + rewrite joinLines_cons, len_app, !len_cons.
      pose proof (len_nonneg _ l). pose proof (len_nonneg _ (joinLines ls)).
      rewrite searchInts_cons_le by lia.
      replace (off + (len l + (1 + len (joinLines ls))) + j)
        with ((off + len l + 1) + len (joinLines ls) + j) by lia.
      rewrite IH. reflexivity.
    + destruct (joinLines ls); [exact Hne | discriminate].
Qed.

(** ** Positions of a token file *)

Lemma Base_pos (tok : token.File) : 1 <= token.Base tok.
Proof. unfold token.Base. lia. Qed.

Lemma FilePos_in (tok : token.File) (o : Z) :
  o <= token.size tok -> token.FilePos tok o = Some (token.Base tok + o).
Proof.
  intros H. unfold token.FilePos.
  destruct (token.size tok <? o) eqn:E; [apply Z.ltb_lt in E; lia | reflexivity].
Qed.

(** Inside the file, [Position] never panics; its line is one more than the
    index found in the table, and its column counts from that entry. *)
Lemma FilePosition_in (tok : token.File) (o : Z) :
  0 <= o <= token.size tok ->
  exists posn,
    token.FilePosition tok (token.Base tok + o) = Some posn /\
    token.Line posn = token.searchInts (token.lines tok) o + 1 /\
    (0 <= token.searchInts (token.lines tok) o ->
     token.Column posn
     = o - nth (Z.to_nat (token.searchInts (token.lines tok) o)) (token.lines tok) 0 + 1) /\
    (token.searchInts (token.lines tok) o < 0 -> token.Column posn = 0).
Proof.
  intros Ho. pose proof (Base_pos tok) as Hb. unfold token.FilePosition, token.NoPos.
  destruct (token.Base tok + o =? 0) eqn:E0; [apply Z.eqb_eq in E0; lia|].
  destruct ((token.Base tok + o <? token.Base tok)
            || (token.Base tok + token.size tok <? token.Base tok + o)) eqn:E1.
  { apply orb_true_iff in E1. destruct E1 as [E1|E1]; apply Z.ltb_lt in E1; lia. }
  replace (token.Base tok + o - token.Base tok) with o by lia.
  pose proof (searchInts_lower (token.lines tok) o) as Hlow.
  destruct (0 <=? token.searchInts (token.lines tok) o) eqn:E2.
  - apply Z.leb_le in E2. eexists. split; [reflexivity|].
    cbn [token.Line token.Column]. split; [reflexivity|].
    split; [intros _; reflexivity | intros; lia].
  - apply Z.leb_gt in E2. eexists. split; [reflexivity|].
    cbn [token.Line token.Column]. split; [lia|].
    split; [intros; lia | intros _; reflexivity].
Qed.

(** ** The binary search of lineStart *)

Section LineStart.

Variable tok : token.File.
Variable line : Z.

Lemma midpoint (min max : Z) :
  0 <= min -> min <= max ->
  min <= Z.quot (min + max) 2 <= max /\
  (min < max -> Z.quot (min + max) 2 < max) /\
  (min + 1 < max -> min < Z.quot (min + max) 2).
Proof.
  intros H0 H1. rewrite Z.quot_div_nonneg by lia.
  pose proof (Z.div_mod (min + max) 2 ltac:(lia)).
  pose proof (Z.mod_pos_bound (min + max) 2 ltac:(lia)). lia.
Qed.

(** A line whose first offset [t] lies in the bracket is found, and the result
    is the position of [t]. *)
Lemma lineStart_loop_found (t : Z) :
  1 <= line ->
  token.searchInts (token.lines tok) t = line - 1 ->
  nth (Z.to_nat (line - 1)) (token.lines tok) 0 = t ->
  forall fuel min max,
    0 <= min <= t -> t < max <= token.size tok ->
    max - min <= Z.of_nat fuel ->
    lsp.lineStart_loop fuel tok line min max = Some (token.Base tok + t).
Proof.
  intros Hline Hs Hn.
  induction fuel as [|fuel IH]; intros min max Hmin Hmax Hfuel; [lia|].
  cbn [lsp.lineStart_loop].
  destruct (midpoint min max ltac:(lia) ltac:(lia)) as (Hm1 & Hm2 & Hm3).
  set (offset := Z.quot (min + max) 2) in *. clearbody offset.
  rewrite FilePos_in by lia.
  destruct (FilePosition_in tok offset ltac:(lia)) as (posn & -> & HL & HC & _).
  destruct (token.Line posn =? line) eqn:E.
  - apply Z.eqb_eq in E.
    assert (Hi : token.searchInts (token.lines tok) offset = line - 1) by lia.
    pose proof (searchInts_lower (token.lines tok) t).
    rewrite HC by lia. rewrite Hi, Hn. f_equal. lia.
  - apply Z.eqb_neq in E.
    destruct (max <=? min + 1) eqn:E1.
    + apply Z.leb_le in E1. exfalso. apply E.
      assert (Ho : offset = t) by lia. rewrite Ho in HL. lia.
    + apply Z.leb_gt in E1.
      destruct (token.Line posn <? line) eqn:E2.
      * apply Z.ltb_lt in E2.
        assert (offset < t).
        { destruct (Z.lt_ge_cases offset t) as [|Hge]; [assumption|].
          pose proof (searchInts_mono (token.lines tok) _ _ Hge). lia. }
        apply IH; lia.
      * apply Z.ltb_ge in E2.
        assert (t < offset).
        { destruct (Z.lt_ge_cases t offset) as [|Hge]; [assumption|].
          pose proof (searchInts_mono (token.lines tok) _ _ Hge). lia. }
        apply IH; lia.
Qed.

(** A line number that no offset of the file resolves to yields [NoPos]. *)
Lemma lineStart_loop_absent :
  (forall o, 0 <= o <= token.size tok -> token.searchInts (token.lines tok) o + 1 <> line) ->
  forall fuel min max,
    0 <= min -> min <= max <= token.size tok ->
    max - min <= Z.of_nat fuel -> (1 <= fuel)%nat ->
    lsp.lineStart_loop fuel tok line min max = Some token.NoPos.
Proof.
  intros Habs. induction fuel as [|fuel IH]; intros min max Hmin Hmax Hfuel H1; [lia|].
  cbn [lsp.lineStart_loop].
  destruct (midpoint min max ltac:(lia) ltac:(lia)) as (Hm1 & Hm2 & Hm3).
  set (offset := Z.quot (min + max) 2) in *. clearbody offset.
  rewrite FilePos_in by lia.
  destruct (FilePosition_in tok offset ltac:(lia)) as (posn & -> & HL & _ & _).
  destruct (token.Line posn =? line) eqn:E.
  { apply Z.eqb_eq in E. exfalso. apply (Habs offset); lia. }
  destruct (max <=? min + 1) eqn:E1; [reflexivity|]. apply Z.leb_gt in E1.
  destruct (token.Line posn <? line); apply IH; lia.
Qed.

(** The search always returns. *)
Lemma lineStart_loop_total :
  forall fuel min max,
    0 <= min -> min <= max <= token.size tok ->
    max - min <= Z.of_nat fuel -> (1 <= fuel)%nat ->
    exists p, lsp.lineStart_loop fuel tok line min max = Some p.
Proof.
  induction fuel as [|fuel IH]; intros min max Hmin Hmax Hfuel H1; [lia|].
  cbn [lsp.lineStart_loop].
  destruct (midpoint min max ltac:(lia) ltac:(lia)) as (Hm1 & Hm2 & Hm3).
  set (offset := Z.quot (min + max) 2) in *. clearbody offset.
  rewrite FilePos_in by lia.
  destruct (FilePosition_in tok offset ltac:(lia)) as (posn & -> & _ & _ & _).
  destruct (token.Line posn =? line); [eexists; reflexivity|].
  destruct (max <=? min + 1) eqn:E1; [eexists; reflexivity|]. apply Z.leb_gt in E1.
  destruct (token.Line posn <? line); apply IH; lia.
Qed.

End LineStart.

(** ** lineStart on the file of a text *)

Lemma lineStart_unfold (b : positive) (content : list byte) (line : Z) :
  lsp.lineStart (source.fileOf b content) line
  = lsp.lineStart_loop (S (length content)) (token.fileOf b content) line 0 (len content).
Proof.
  unfold lsp.lineStart, source.fileOf, token.fileOf, token.Size, len.
  cbn [source.GetToken token.size]. rewrite Nat2Z.id. reflexivity.
Qed.

(** The start of line [length ls + 1] of a text that begins with the complete
    lines [ls] and goes on after them. *)
Lemma lineStart_line (b : positive) (ls : list (list byte)) (rest : list byte) :
  Forall nonl ls -> rest <> [] ->
  lsp.lineStart (source.fileOf b (joinLines ls ++ rest)) (len ls + 1)
  = Some (Z.pos b + len (joinLines ls)).
Proof.
  intros Hls Hrest. rewrite lineStart_unfold.
  pose proof (len_nonneg _ ls). pose proof (len_nonneg _ (joinLines ls)).
  pose proof (len_pos _ rest Hrest).
  apply (lineStart_loop_found (token.fileOf b (joinLines ls ++ rest)) (len ls + 1)
           (len (joinLines ls))).
  - lia.
  - cbn [token.fileOf token.lines].
    pose proof (searchInts_line ls [] rest 0 Hls (fun H => H) Hrest
                  ltac:(rewrite len_nil; lia) 0) as Hs.
    cbn [app] in Hs. rewrite Z.add_0_l, Z.add_0_r in Hs. rewrite Hs. lia.
  - cbn [token.fileOf token.lines].
    replace (Z.to_nat (len ls + 1 - 1)) with (length ls) by (unfold len; lia).
    rewrite lineTable_nth by assumption. lia.
  - lia.
  - cbn [token.fileOf token.size]. rewrite len_app. lia.
  - unfold len. lia.
Qed.

(** Line numbers beyond the table have no start. *)
Lemma lineStart_beyond (b : positive) (content : list byte) (line : Z) :
  token.LineCount (token.fileOf b content) < line ->
  lsp.lineStart (source.fileOf b content) line = Some token.NoPos.
Proof.
  intros Hline. rewrite lineStart_unfold.
  pose proof (len_nonneg _ content).
  apply lineStart_loop_absent.
  - intros o _. unfold token.LineCount in Hline.
    pose proof (searchInts_upper (token.lines (token.fileOf b content)) o). lia.
  - lia.
  - cbn [token.fileOf token.size]. lia.
  - unfold len. lia.
  - lia.
Qed.

Lemma lineStart_total (b : positive) (content : list byte) (line : Z) :
  exists p, lsp.lineStart (source.fileOf b content) line = Some p.
Proof.
  rewrite lineStart_unfold. pose proof (len_nonneg _ content).
  apply lineStart_loop_total.
  - lia.
  - cbn [token.fileOf token.size]. lia.
  - unfold len. lia.
  - lia.
Qed.

(** ** utf8.DecodeRune *)

Lemma byteZ_range (b : byte) : 0 <= byteZ b < 256.
Proof. unfold byteZ. pose proof (Byte.to_N_bounded b). lia. Qed.

Lemma first_Multi (p0 sz lo hi : Z) :
  utf8.first p0 = utf8.Multi sz lo hi ->
  (sz = 2 \/ sz = 3 \/ sz = 4) /\ 0x80 <= lo.
Proof.
  unfold utf8.first, utf8.locb.
  repeat match goal with
         | |- context [if ?c then _ else _] => destruct c
         end; intros H; inversion H; subst; lia.
Qed.

Ltac split_ifs :=
  repeat match goal with
         | |- context [if ?c then _ else _] => destruct c eqn:?
         end.

Ltac bool_to_Z :=
  repeat match goal with
         | H : (_ || _) = true |- _ => apply orb_true_iff in H; destruct H
         | H : (_ || _) = false |- _ => apply orb_false_iff in H; destruct H
         | H : (_ <? _) = true |- _ => apply Z.ltb_lt in H
         | H : (_ <? _) = false |- _ => apply Z.ltb_ge in H
         | H : (_ <=? _) = true |- _ => apply Z.leb_le in H
         | H : (_ <=? _) = false |- _ => apply Z.leb_gt in H
         end.

(** A rune of a non-empty input is at least one byte wide and never wider
    than the input. *)
Lemma DecodeRune_size (c0 : byte) (p : list byte) :
  1 <= snd (utf8.DecodeRune (c0 :: p)) <= len (c0 :: p).
Proof.
  unfold utf8.DecodeRune.
  destruct (utf8.first (byteZ c0)) as [| |sz lo hi] eqn:Ef;
    rewrite ?len_cons; pose proof (len_nonneg _ p); cbn [snd]; try lia.
  destruct (first_Multi _ _ _ _ Ef) as [Hsz _].
  destruct p as [|c1 [|c2 [|c3 p']]]; rewrite ?len_cons, ?len_nil in *;
    split_ifs; cbn [snd]; bool_to_Z;
    try match goal with l : list byte |- _ => pose proof (len_nonneg _ l) end; lia.
Qed.

Lemma DecodeRune_ascii (c0 : byte) (p : list byte) :
  ascii c0 -> utf8.DecodeRune (c0 :: p) = (byteZ c0, 1).
Proof.
  unfold ascii, utf8.DecodeRune, utf8.first. intros H.
  destruct (byteZ c0 <? 128) eqn:E; [reflexivity | apply Z.ltb_ge in E; lia].
Qed.

(** A newline after the input does not change what is decoded: it is no
    continuation byte. *)
Lemma DecodeRune_before_NL (c0 : byte) (p q : list byte) :
  utf8.DecodeRune ((c0 :: p) ++ NL :: q) = utf8.DecodeRune (c0 :: p).
Proof.
  unfold utf8.DecodeRune. cbn [app].
  destruct (utf8.first (byteZ c0)) as [| |sz lo hi] eqn:Ef; try reflexivity.
  destruct (first_Multi _ _ _ _ Ef) as [Hsz Hlo].
  assert (HNL : byteZ NL = 10) by reflexivity.
  destruct p as [|c1 [|c2 [|c3 p]]]; cbn [app];
    rewrite ?len_cons, ?len_nil, ?HNL; unfold utf8.locb, utf8.hicb;
    pose proof (len_nonneg _ q);
    split_ifs; bool_to_Z; try reflexivity; try lia.
  all: pose proof (len_nonneg _ (p ++ NL :: q)); pose proof (len_nonneg _ p); try lia.
Qed.

(** ** The two loops of columnOffset *)

Lemma len_pos_ltb (A : Type) (x : A) (l : list A) : (0 <? len (x :: l)) = true.
Proof. apply Z.ltb_lt. rewrite len_cons. pose proof (len_nonneg _ l). lia. Qed.

(** Skipping [length ls] lines of a text that begins with the complete lines
    [ls] leaves what follows them. *)
Lemma skipLines_join (ls : list (list byte)) (rest : list byte) :
  Forall nonl ls ->
  forall fuel,
    (length (joinLines ls ++ rest) < fuel)%nat ->
    lsp.skipLines fuel (joinLines ls ++ rest) (len ls) = Some (inr rest).
Proof.
  intros Hls. induction Hls as [|l ls Hl _ IH]; intros fuel Hfuel.
  - destruct fuel as [|fuel]; [lia|]. cbn [joinLines map concat app lsp.skipLines].
    rewrite len_nil. destruct (0 <? len rest); reflexivity.
  - destruct fuel as [|fuel]; [lia|]. rewrite joinLines_cons_app in *.
    cbn [lsp.skipLines].
    assert (Hpos : (0 <? len (l ++ NL :: joinLines ls ++ rest)) = true).
    { apply Z.ltb_lt. rewrite len_app, len_cons.
      pose proof (len_nonneg _ l). pose proof (len_nonneg _ (joinLines ls ++ rest)). lia. }
    rewrite Hpos, len_cons. pose proof (len_nonneg _ ls).
    destruct (1 + len ls =? 0) eqn:E; [apply Z.eqb_eq in E; lia|].
    rewrite IndexByte_first by exact Hl. pose proof (len_nonneg _ l).
    destruct (len l <? 0) eqn:E2; [apply Z.ltb_lt in E2; lia|].
    rewrite slice_from_line. replace (1 + len ls - 1) with (len ls) by lia.
    apply IH. rewrite length_app in Hfuel. cbn [length] in Hfuel. lia.
Qed.

Lemma skipLines_total (fuel : nat) :
  forall content line,
    (length content < fuel)%nat ->
    exists r, lsp.skipLines fuel content line = Some r.
Proof.
  induction fuel as [|fuel IH]; intros content line Hfuel; [lia|].
  cbn [lsp.skipLines].
  destruct (0 <? len content) eqn:E0; [|eexists; reflexivity].
  destruct (line =? 0); [eexists; reflexivity|].
  destruct (bytes.IndexByte content NL <? 0) eqn:E; [eexists; reflexivity|].
  apply IH. apply Z.ltb_ge in E. apply Z.ltb_lt in E0.
  unfold slice_from. rewrite length_skipn. unfold len in E0. lia.
Qed.

Lemma scan_total (fuel : nat) :
  forall content char offset character,
    (length content < fuel)%nat ->
    exists v, lsp.scan fuel content char offset character = Some v.
Proof.
  induction fuel as [|fuel IH]; intros content char offset character Hfuel; [lia|].
  cbn [lsp.scan]. destruct content as [|c0 p]; [eexists; reflexivity|].
  rewrite len_pos_ltb.
  pose proof (DecodeRune_size c0 p) as Hsize.
  destruct (utf8.DecodeRune (c0 :: p)) as [r size]. cbn [snd] in Hsize.
  destruct (character <? _); [eexists; reflexivity|].
  apply IH. unfold slice_from. rewrite length_skipn. cbn [length] in *. lia.
Qed.

Lemma columnOffset_total (content : list byte) (pos : protocol.Position) :
  exists v, lsp.columnOffset content pos = Some v.
Proof.
  unfold lsp.columnOffset.
  destruct (skipLines_total (S (length content)) content (protocol.Line pos)
              ltac:(lia)) as [[v|rest] ->].
  - eexists; reflexivity.
  - apply scan_total. lia.
Qed.

(** The window of a line that ends in a newline is the line with its
    newline. *)
Lemma window_line (l post : list byte) :
  nonl l -> lsp.window (l ++ NL :: post) = l ++ [NL].
Proof.
  intros Hl. unfold lsp.window. rewrite IndexByte_first by exact Hl.
  pose proof (len_nonneg _ l).
  destruct (len l =? -1) eqn:E; [apply Z.eqb_eq in E; lia|].
  cbn [negb]. apply slice_to_line.
Qed.

Lemma window_nonl (l : list byte) : nonl l -> lsp.window l = l.
Proof.
  intros Hl. unfold lsp.window. rewrite IndexByte_absent by exact Hl. reflexivity.
Qed.

(** Whatever comes after a newline-free run and one more byte, the window
    contains the run and that byte. *)
Lemma window_prefix (l1 : list byte) (x : byte) (l2 : list byte) :
  nonl l1 -> exists w2, lsp.window (l1 ++ x :: l2) = l1 ++ x :: w2.
Proof.
  intros Hl1. destruct (Byte.byte_eq_dec x NL) as [->|Hx].
  - exists []. apply window_line, Hl1.
  - assert (Hl1x : nonl (l1 ++ [x])).
    { intros H. apply in_app_or in H. destruct H as [H|[H|[]]]; [exact (Hl1 H) | congruence]. }
    replace (l1 ++ x :: l2) with ((l1 ++ [x]) ++ l2) by (rewrite <- app_assoc; reflexivity).
    destruct (first_line l2) as [Hl2 | (l & more & -> & Hl)].
    + exists l2. rewrite window_nonl; [rewrite <- app_assoc; reflexivity|].
      intros H. apply in_app_or in H. destruct H as [H|H]; [exact (Hl1x H) | exact (Hl2 H)].
    + exists (l ++ [NL]). rewrite app_assoc, window_line.
      * rewrite <- !app_assoc. reflexivity.
      * intros H. apply in_app_or in H. destruct H as [H|H]; [exact (Hl1x H) | exact (Hl H)].
Qed.

Lemma columnOffset_line (ls : list (list byte)) (rest : list byte) (c : Z) :
  Forall nonl ls ->
  lsp.columnOffset (joinLines ls ++ rest) (protocol.mkPosition (len ls) c)
  = lsp.scan (S (length (lsp.window rest))) (lsp.window rest) 0 0 c.
Proof.
  intros Hls. unfold lsp.columnOffset. cbn [protocol.Line protocol.Character].
  rewrite skipLines_join by (assumption || lia). reflexivity.
Qed.

(** Conversion of a position on line [length ls]: the start of the line plus
    the result of the column scan over the window of that line. *)
Lemma fromProtocolPosition_line
      (b : positive) (ls : list (list byte)) (rest : list byte) (c : Z) :
  Forall nonl ls -> rest <> [] ->
  lsp.fromProtocolPosition (source.fileOf b (joinLines ls ++ rest))
                           (protocol.mkPosition (len ls) c)
  = v <- lsp.scan (S (length (lsp.window rest))) (lsp.window rest) 0 0 c ;;
    Some (Z.pos b + len (joinLines ls) + v).
Proof.
  intros Hls Hrest. unfold lsp.fromProtocolPosition.
  cbn [protocol.Line source.fileOf source.GetContent].
  change (source.mkFile (joinLines ls ++ rest) (token.fileOf b (joinLines ls ++ rest)))
    with (source.fileOf b (joinLines ls ++ rest)).
  rewrite lineStart_line, columnOffset_line by assumption. reflexivity.
Qed.

(** One turn of the scan loop: the unit counter grows by the UTF-16 width of
    the rune read, the byte counter by its UTF-8 width. *)
Lemma scan_step (fuel : nat) (c0 : byte) (p : list byte) (char offset character : Z) :
  lsp.scan (S fuel) (c0 :: p) char offset character
  = let '(r, size) := utf8.DecodeRune (c0 :: p) in
    if character <? char + utf16Units r then Some offset
    else lsp.scan fuel (slice_from size (c0 :: p)) (char + utf16Units r)
                  (offset + size) character.
Proof.
  cbn [lsp.scan]. rewrite len_pos_ltb.
  destruct (utf8.DecodeRune (c0 :: p)) as [r size]. unfold utf16Units.
  destruct (65536 <=? r); [|reflexivity].
  replace (char + 1 + 1) with (char + 2) by lia. reflexivity.
Qed.

Lemma scan_nil (fuel : nat) (char offset character : Z) :
  lsp.scan (S fuel) [] char offset character = Some (-1).
Proof. reflexivity. Qed.

Lemma utf16Units_range (r : Z) : 1 <= utf16Units r <= 2.
Proof. unfold utf16Units. destruct (65536 <=? r); lia. Qed.

(** Over a run of ASCII bytes the UTF-16 column is the byte column: asking
    for the column just after the run stops the scan at the byte after it. *)
Lemma scan_ascii_prefix (l1 : list byte) (x : byte) (l2 : list byte) :
  Forall ascii l1 ->
  forall fuel char offset,
    (length (l1 ++ x :: l2) < fuel)%nat ->
    lsp.scan fuel (l1 ++ x :: l2) char offset (char + len l1)
    = Some (offset + len l1).
Proof.
  intros Hl1. induction Hl1 as [|a l1 Ha _ IH]; intros fuel char offset Hfuel;
    (destruct fuel as [|fuel]; [lia|]); cbn [app]; rewrite scan_step.
  - destruct (utf8.DecodeRune (x :: l2)) as [r size].
    pose proof (utf16Units_range r). rewrite len_nil.
    destruct (char + 0 <? char + utf16Units r) eqn:E; [|apply Z.ltb_ge in E; lia].
    f_equal. lia.
  - rewrite (DecodeRune_ascii a _ Ha).
    assert (Hu : utf16Units (byteZ a) = 1).
    { unfold utf16Units, ascii in *. destruct (65536 <=? byteZ a) eqn:E; [|reflexivity].
      apply Z.leb_le in E. lia. }
    rewrite Hu, len_cons. pose proof (len_nonneg _ l1).
    destruct (char + (1 + len l1) <? char + 1) eqn:E; [apply Z.ltb_lt in E; lia|].
    change (slice_from 1 (a :: l1 ++ x :: l2)) with (l1 ++ x :: l2).
    replace (char + (1 + len l1)) with (char + 1 + len l1) by lia.
    rewrite IH by (cbn [app length] in Hfuel; lia). f_equal. lia.
Qed.

(** ** UTF-16 length *)

Lemma utf16len_loop_fuel (fuel1 : nat) :
  forall fuel2 s,
    (length s <= fuel1)%nat -> (length s <= fuel2)%nat ->
    utf16len_loop fuel1 s = utf16len_loop fuel2 s.
Proof.
  induction fuel1 as [|fuel1 IH]; intros fuel2 s H1 H2.
  - destruct s; [|cbn in H1; lia]. destruct fuel2; reflexivity.
  - destruct s as [|c0 p]; [destruct fuel2; reflexivity|].
    destruct fuel2 as [|fuel2]; [cbn in H2; lia|].
    cbn [utf16len_loop].
    pose proof (DecodeRune_size c0 p) as Hsize.
    destruct (utf8.DecodeRune (c0 :: p)) as [r size]. cbn [snd] in Hsize.
    f_equal. apply IH; unfold slice_from; rewrite length_skipn;
      unfold len in Hsize; cbn [length] in *; lia.
Qed.

Lemma utf16len_nil : utf16len [] = 0.
Proof. reflexivity. Qed.

Lemma utf16len_cons (c0 : byte) (p : list byte) :
  utf16len (c0 :: p)
  = utf16Units (fst (utf8.DecodeRune (c0 :: p)))
    + utf16len (slice_from (snd (utf8.DecodeRune (c0 :: p))) (c0 :: p)).
Proof.
  unfold utf16len. cbn [length utf16len_loop].
  pose proof (DecodeRune_size c0 p) as Hsize.
  destruct (utf8.DecodeRune (c0 :: p)) as [r size]. cbn [fst snd] in *.
  f_equal. apply utf16len_loop_fuel; [|lia].
  unfold slice_from. rewrite length_skipn. unfold len in Hsize. cbn [length] in *. lia.
Qed.

Lemma utf16len_loop_nonneg (fuel : nat) : forall s, 0 <= utf16len_loop fuel s.
Proof.
  induction fuel as [|fuel IH]; intros s; cbn [utf16len_loop]; [lia|].
  destruct s as [|c0 p]; [lia|].
  destruct (utf8.DecodeRune (c0 :: p)) as [r size].
  pose proof (utf16Units_range r). pose proof (IH (slice_from size (c0 :: p))). lia.
Qed.

Lemma utf16len_nonneg (s : list byte) : 0 <= utf16len s.
Proof. apply utf16len_loop_nonneg. Qed.

(** ** The scan over the window of a newline-terminated line *)

Lemma slice_from_app_le (A : Type) (i : Z) (l1 l2 : list A) :
  0 <= i <= len l1 -> slice_from i (l1 ++ l2) = slice_from i l1 ++ l2.
Proof.
  intros H. unfold slice_from, len in *. rewrite skipn_app.
  replace (Z.to_nat i - length l1)%nat with 0%nat by lia. reflexivity.
Qed.

Lemma scan_line (fuel : nat) :
  forall l char offset character,
    (length (l ++ [NL]) < fuel)%nat ->
    (char + utf16len l < character ->
     lsp.scan fuel (l ++ [NL]) char offset character = Some (-1)) /\
    (character = char + utf16len l ->
     lsp.scan fuel (l ++ [NL]) char offset character = Some (offset + len l)) /\
    (character <= char + utf16len l ->
     exists v, lsp.scan fuel (l ++ [NL]) char offset character = Some v /\
               offset <= v <= offset + len l).
Proof.
  induction fuel as [|fuel IH]; intros l char offset character Hfuel; [lia|].
  destruct l as [|c0 p].
  - cbn [app] in *. rewrite scan_step.
    change (utf8.DecodeRune [NL]) with (10, 1). cbv beta iota.
    change (utf16Units 10) with 1. rewrite utf16len_nil, len_nil.
    change (slice_from 1 [NL]) with (@nil byte).
    destruct fuel as [|fuel]; [cbn in Hfuel; lia|]. rewrite scan_nil.
    destruct (character <? char + 1) eqn:E;
      [apply Z.ltb_lt in E | apply Z.ltb_ge in E]; (split; [|split]); intros H;
      try lia; try reflexivity.
    + f_equal. lia.
    + exists offset. split; [reflexivity | lia].
  - change ((c0 :: p) ++ [NL]) with (c0 :: (p ++ [NL])) at 1 2 3. rewrite scan_step.
    change (c0 :: (p ++ [NL])) with ((c0 :: p) ++ [NL]).
    rewrite DecodeRune_before_NL, utf16len_cons.
    pose proof (DecodeRune_size c0 p) as Hsize.
    destruct (utf8.DecodeRune (c0 :: p)) as [r size]. cbn [fst snd] in *.
    pose proof (utf16Units_range r) as Hu.
    rewrite slice_from_app_le by lia.
    set (l' := slice_from size (c0 :: p)) in *.
    assert (Hlen : len l' = len (c0 :: p) - size)
      by (apply slice_from_length; lia).
    pose proof (utf16len_nonneg l') as Hn.
    pose proof (len_nonneg _ l') as Hl'.
    assert (Hfuel' : (length (l' ++ [NL]) < fuel)%nat).
    { rewrite length_app in *. unfold len in Hlen. cbn [length] in *. lia. }
    destruct (IH l' (char + utf16Units r) (offset + size) character Hfuel')
      as (IH1 & IH2 & IH3).
    destruct (character <? char + utf16Units r) eqn:E;
      [apply Z.ltb_lt in E | apply Z.ltb_ge in E]; (split; [|split]); intros H.
    + lia.
    + lia.
    + exists offset. split; [reflexivity | lia].
    + apply IH1. lia.
    + rewrite IH2 by lia. f_equal. lia.
    + destruct (IH3 ltac:(lia)) as (v & -> & Hv). exists v. split; [reflexivity | lia].
Qed.

(** ** Offsets seen through the lines before them *)

Lemma split_lines (s : list byte) :
  exists ls l1, Forall nonl ls /\ nonl l1 /\ s = joinLines ls ++ l1.
Proof.
  induction s as [|a s (ls & l1 & Hls & Hl1 & ->)].
  - exists [], []. repeat split; [constructor | intros []].
  - destruct (Byte.byte_eq_dec a NL) as [->|Ha].
    + exists ([] :: ls), l1. split; [constructor; [intros [] | assumption]|].
      split; [assumption|]. rewrite joinLines_cons_app. reflexivity.
    + destruct Hls as [|l ls Hl Hls].
      * exists [], (a :: l1). split; [constructor|]. split; [|reflexivity].
        intros [H|H]; [congruence | exact (Hl1 H)].
      * exists ((a :: l) :: ls), l1. split.
        { constructor; [|assumption]. intros [H|H]; [congruence | exact (Hl H)]. }
        split; [assumption|]. rewrite !joinLines_cons_app. reflexivity.
Qed.

(** Every offset of a byte of the text is some way into a line that follows
    complete lines. *)
Lemma offset_decompose (content : list byte) (o : Z) :
  0 <= o < len content ->
  exists ls l1 x l2,
    Forall nonl ls /\ nonl l1 /\
    content = joinLines ls ++ l1 ++ x :: l2 /\
    o = len (joinLines ls) + len l1.
Proof.
  intros Ho. unfold len in Ho.
  pose proof (firstn_skipn (Z.to_nat o) content) as Hsplit.
  assert (Hfirst : length (firstn (Z.to_nat o) content) = Z.to_nat o)
    by (rewrite length_firstn; lia).
  destruct (skipn (Z.to_nat o) content) as [|x l2] eqn:Eskip.
  { pose proof (length_skipn (Z.to_nat o) content) as Hl. rewrite Eskip in Hl.
    cbn in Hl. lia. }
  destruct (split_lines (firstn (Z.to_nat o) content)) as (ls & l1 & Hls & Hl1 & E).
  exists ls, l1, x, l2. split; [assumption|]. split; [assumption|]. split.
  - rewrite app_assoc, <- E. symmetry. exact Hsplit.
  - rewrite <- len_app, <- E. unfold len. lia.
Qed.

(** The protocol position of an offset [length l1] bytes into line
    [length ls]. *)
Lemma toProtocolPosition_line
      (b : positive) (ls : list (list byte)) (l1 : list byte) (x : byte) (l2 : list byte) :
  Forall nonl ls -> nonl l1 ->
  lsp.toProtocolPosition (token.fileOf b (joinLines ls ++ l1 ++ x :: l2))
                         (Z.pos b + (len (joinLines ls) + len l1))
  = Some (protocol.mkPosition (len ls) (len l1)).
Proof.
  intros Hls Hl1. set (content := joinLines ls ++ l1 ++ x :: l2).
  pose proof (len_nonneg _ (joinLines ls)). pose proof (len_nonneg _ l1).
  pose proof (len_nonneg _ l2). pose proof (len_nonneg _ ls).
  assert (Hne : l1 ++ x :: l2 <> []) by (destruct l1; discriminate).
  unfold lsp.toProtocolPosition, token.IsValid, token.NoPos.
  destruct (Z.pos b + (len (joinLines ls) + len l1) =? 0) eqn:E0;
    [apply Z.eqb_eq in E0; lia|]. cbn [negb].
  assert (Hsize : token.size (token.fileOf b content)
                  = len (joinLines ls) + (len l1 + (1 + len l2))).
  { unfold content. cbn [token.fileOf token.size].
    rewrite !len_app, len_cons. reflexivity. }
  destruct (FilePosition_in (token.fileOf b content) (len (joinLines ls) + len l1)
              ltac:(lia)) as (posn & Hp & HL & HC & _).
  change (token.Base (token.fileOf b content)) with (Z.pos b) in Hp. rewrite Hp.
  cbn [token.fileOf token.lines] in HL, HC. unfold content in HL, HC.
  pose proof (searchInts_line ls l1 (x :: l2) (len l1) Hls Hl1 Hne ltac:(lia) 0) as Hs.
  rewrite Z.add_0_l in Hs. rewrite Hs in HL, HC.
  replace (Z.to_nat (len ls)) with (length ls) in HC by (unfold len; lia).
  rewrite lineTable_nth in HC by assumption.
  rewrite HL, HC by lia. apply f_equal. apply f_equal2; lia.
Qed.

(** ** Evaluation on the scenario documents *)

Lemma doc_ascii_lines :
  doc_ascii = joinLines [[x61; x62; x63]] ++ [x64; x65; x66; x0a].
Proof. reflexivity. Qed.

Lemma doc_emoji_lines :
  doc_emoji = joinLines [] ++ [x61; xf0; x9f; x99; x82; x62; x0a].
Proof. reflexivity. Qed.

Lemma doc_ab_lines : doc_ab = joinLines [] ++ [x61; x62; x0a].
Proof. reflexivity. Qed.

Lemma doc_abcd_lines : doc_abcd = joinLines [[x61; x62]] ++ [x63; x64; x0a].
Proof. reflexivity. Qed.

Lemma nonl_lines_abc : Forall nonl [[x61; x62; x63]].
Proof. constructor; [|constructor]. intros H. cbn in H. intuition discriminate. Qed.

Lemma nonl_lines_ab : Forall nonl [[x61; x62]].
Proof. constructor; [|constructor]. intros H. cbn in H. intuition discriminate. Qed.

(** Conversion of a position of a document written as complete lines plus a
    rest, once the scan of the rest's window has been evaluated to [v]. *)
Lemma fromProtocolPosition_eval
      (b : positive) (ls : list (list byte)) (rest : list byte) (ln c v : Z) :
  Forall nonl ls -> rest <> [] -> ln = len ls ->
  lsp.scan (S (length (lsp.window rest))) (lsp.window rest) 0 0 c = Some v ->
  lsp.fromProtocolPosition (source.fileOf b (joinLines ls ++ rest))
                           (protocol.mkPosition ln c)
  = Some (Z.pos b + (len (joinLines ls) + v)).
Proof.
  intros Hls Hrest -> Hscan. rewrite fromProtocolPosition_line by assumption.
  rewrite Hscan. f_equal. lia.
Qed.

Lemma fromProtocolPosition_total
      (b : positive) (content : list byte) (pos : protocol.Position) :
  exists p, lsp.fromProtocolPosition (source.fileOf b content) pos = Some p.
Proof.
  unfold lsp.fromProtocolPosition.
  destruct (lineStart_total b content (protocol.Line pos + 1)) as [line ->].
  cbn [source.fileOf source.GetContent].
  destruct (columnOffset_total content pos) as [c ->].
  eexists; reflexivity.
Qed.

Lemma Position_eqb_eq (p q : protocol.Position) :
  protocol.Position_eqb p q = true <-> p = q.
Proof.
  destruct p as [pl pc], q as [ql qc]. unfold protocol.Position_eqb.
  cbn [protocol.Line protocol.Character]. rewrite andb_true_iff, !Z.eqb_eq.
  split; [intros [-> ->]; reflexivity | intros H; inversion H; split; reflexivity].
Qed.

(** * The claims of the specification *)

(** C1.  On ["ab\n"] at position (0, 10), and whenever the scan uses up the
    line without passing the requested column, [columnOffset] returns -1.
    The conversion [fromProtocolPosition] does not keep that signal apart: it
    adds the -1 to the start of the line.  On ["ab\ncd\n"] at position
    (1, 10) the result is the position of offset 2, the newline of the line
    before, which is also the result for the in-range position (0, 2); on
    ["ab\n"] at (0, 10) it is the position just before the file. *)
Theorem C1_column_error_absorbed (b : positive) :
  lsp.columnOffset doc_abcd (protocol.mkPosition 1 10) = Some (-1) /\
  lsp.fromProtocolPosition (source.fileOf b doc_abcd) (protocol.mkPosition 1 10)
  = token.FilePos (token.fileOf b doc_abcd) 2 /\
  lsp.fromProtocolPosition (source.fileOf b doc_abcd) (protocol.mkPosition 0 2)
  = token.FilePos (token.fileOf b doc_abcd) 2 /\
  lsp.columnOffset doc_ab (protocol.mkPosition 0 10) = Some (-1) /\
  lsp.fromProtocolPosition (source.fileOf b doc_ab) (protocol.mkPosition 0 10)
  = Some (Z.pos b - 1).
Proof.
  split; [reflexivity|]. split; [|split; [|split; [reflexivity|]]].
  - rewrite doc_abcd_lines at 1.
    exact (fromProtocolPosition_eval b [[x61; x62]] [x63; x64; x0a] 1 10 (-1)
             nonl_lines_ab ltac:(discriminate) eq_refl eq_refl).
  - change doc_abcd with (joinLines [] ++ doc_abcd) at 1.
    exact (fromProtocolPosition_eval b [] doc_abcd 0 2 2
             (Forall_nil _) ltac:(discriminate) eq_refl eq_refl).
  - rewrite doc_ab_lines.
    exact (fromProtocolPosition_eval b [] [x61; x62; x0a] 0 10 (-1)
             (Forall_nil _) ltac:(discriminate) eq_refl eq_refl).
Qed.

(** Past the end of a newline-terminated line the conversion yields the
    position just before the start of the line: the -1 of [columnOffset]
    added to the line start. *)
Lemma fromProtocolPosition_past_end
      (b : positive) (ls : list (list byte)) (l post : list byte) (c : Z) :
  Forall nonl ls -> nonl l -> utf16len l < c ->
  lsp.fromProtocolPosition (source.fileOf b (joinLines ls ++ l ++ NL :: post))
                           (protocol.mkPosition (len ls) c)
  = Some (Z.pos b + len (joinLines ls) - 1).
Proof.
  intros Hls Hl Hc.
  rewrite fromProtocolPosition_line; [|assumption | destruct l; discriminate].
  rewrite window_line by exact Hl.
  destruct (scan_line (S (length (l ++ [NL]))) l 0 0 c ltac:(lia)) as (S1 & _).
  rewrite S1 by lia. f_equal.
Qed.

(** C2 (amended).  On ["a" U+1F642 "b\n"], position (0, 3) converts to the
    position of byte offset 5, the byte 'b' after the four bytes of the
    emoji, and position (0, 1) to the position of byte offset 1, the start of
    the emoji.  In every turn of the scan the unit counter grows by 1 for a
    rune below U+10000 and by 2 for a rune from U+10000 on. *)
Theorem C2_emoji_scenario (b : positive) :
  lsp.fromProtocolPosition (source.fileOf b doc_emoji) (protocol.mkPosition 0 3)
  = token.FilePos (token.fileOf b doc_emoji) 5 /\
  nth 5 doc_emoji x00 = x62 /\
  lsp.fromProtocolPosition (source.fileOf b doc_emoji) (protocol.mkPosition 0 1)
  = token.FilePos (token.fileOf b doc_emoji) 1 /\
  utf8.DecodeRune (slice_from 1 doc_emoji) = (0x1F642, 4) /\
  (forall fuel c0 p char offset character,
      lsp.scan (S fuel) (c0 :: p) char offset character
      = let '(r, size) := utf8.DecodeRune (c0 :: p) in
        let char' := char + (if r <? 0x10000 then 1 else 2) in
        if character <? char' then Some offset
        else lsp.scan fuel (slice_from size (c0 :: p)) char' (offset + size) character).
Proof.
  split; [|split; [reflexivity|split; [|split; [reflexivity|]]]].
  - change doc_emoji with (joinLines [] ++ doc_emoji) at 1.
    exact (fromProtocolPosition_eval b [] doc_emoji 0 3 5
             (Forall_nil _) ltac:(discriminate) eq_refl eq_refl).
  - change doc_emoji with (joinLines [] ++ doc_emoji) at 1.
    exact (fromProtocolPosition_eval b [] doc_emoji 0 1 1
             (Forall_nil _) ltac:(discriminate) eq_refl eq_refl).
  - intros fuel c0 p char offset character. rewrite scan_step.
    destruct (utf8.DecodeRune (c0 :: p)) as [r size]. unfold utf16Units.
    cbv zeta. destruct (r <? 65536) eqn:E1, (65536 <=? r) eqn:E2; try reflexivity; lia.
Qed.

(** C2, as stated, fails: position (0, 3) does not convert to byte offset 6,
    which is the newline; read as raw [Pos] numbers at base 1 the pair
    (6, 1) fails as well, on the second component. *)
Lemma C2_counterexample :
  lsp.fromProtocolPosition (source.fileOf 1 doc_emoji) (protocol.mkPosition 0 3)
  <> token.FilePos (token.fileOf 1 doc_emoji) 6 /\
  nth 6 doc_emoji x00 = NL /\
  lsp.fromProtocolPosition (source.fileOf 1 doc_emoji) (protocol.mkPosition 0 1)
  <> Some 1.
Proof.
  split; [|split]; [vm_compute; discriminate | reflexivity | vm_compute; discriminate].
Qed.

(** C4.  On ["abc\ndef\n"], position (1, 1) converts to the position of byte
    offset 5, the byte 'e', and that position converts back to (1, 1). *)
Theorem C4_ascii_scenario (b : positive) :
  lsp.fromProtocolPosition (source.fileOf b doc_ascii) (protocol.mkPosition 1 1)
  = token.FilePos (token.fileOf b doc_ascii) 5 /\
  nth 5 doc_ascii x00 = x65 /\
  token.FilePos (token.fileOf b doc_ascii) 5 = Some (Z.pos b + 5) /\
  lsp.toProtocolPosition (token.fileOf b doc_ascii) (Z.pos b + 5)
  = Some (protocol.mkPosition 1 1).
Proof.
  split; [|split; [reflexivity|split; [reflexivity|]]].
  - rewrite doc_ascii_lines at 1.
    exact (fromProtocolPosition_eval b [[x61; x62; x63]] [x64; x65; x66; x0a] 1 1 1
             nonl_lines_abc ltac:(discriminate) eq_refl eq_refl).
  - exact (toProtocolPosition_line b [[x61; x62; x63]] [x64] x65 [x66; x0a]
             nonl_lines_abc ltac:(intros H; cbn in H; intuition discriminate)).
Qed.

(** C3, as stated, fails.  In ["a" U+1F642 "b\n"] offset 5 is the start of
    the rune 'b'.  Its protocol position is (0, 5), the byte column taken as
    a UTF-16 column, and the line has only four UTF-16 units before its
    newline: converting back runs past the line and does not return the
    position of offset 5. *)
Lemma C3_counterexample :
  0 <= 5 < len doc_emoji /\
  runeStart doc_emoji 5 = true /\
  lsp.toProtocolPosition (token.fileOf 1 doc_emoji) (1 + 5)
  = Some (protocol.mkPosition 0 5) /\
  lsp.fromProtocolPosition (source.fileOf 1 doc_emoji) (protocol.mkPosition 0 5)
  = Some 0 /\
  Some 0 <> token.FilePos (token.fileOf 1 doc_emoji) 5.
Proof.
  split; [unfold len; cbn; lia|]. split; [reflexivity|]. split; [reflexivity|].
  split; [reflexivity|]. vm_compute. discriminate.
Qed.

(** C3 (amended).  For every offset [o] of a byte of the document, the
    conversion to a protocol position returns, and when the bytes of [o]'s
    line before [o] are all ASCII, converting that position back yields the
    position of [o] again. *)
Theorem C3_roundtrip_ascii_prefix (b : positive) (content : list byte) (o : Z) :
  0 <= o < len content ->
  (exists p, lsp.toProtocolPosition (token.fileOf b content) (Z.pos b + o) = Some p) /\
  (forall p,
      lsp.toProtocolPosition (token.fileOf b content) (Z.pos b + o) = Some p ->
      (forall k, o - protocol.Character p <= k < o ->
                 ascii (nth (Z.to_nat k) content x00)) ->
      lsp.fromProtocolPosition (source.fileOf b content) p = Some (Z.pos b + o)).
Proof.
  intros Ho.
  destruct (offset_decompose content o Ho) as (ls & l1 & x & l2 & Hls & Hl1 & -> & ->).
  pose proof (toProtocolPosition_line b ls l1 x l2 Hls Hl1) as Hto.
  split; [eexists; exact Hto|].
  intros p Hp Hascii. rewrite Hto in Hp. injection Hp as <-.
  cbn [protocol.Character] in Hascii.
  assert (HF : Forall ascii l1).
  { apply Forall_nth. intros i d Hi.
    specialize (Hascii (len (joinLines ls) + Z.of_nat i)).
    replace (Z.to_nat (len (joinLines ls) + Z.of_nat i))
      with (length (joinLines ls) + i)%nat in Hascii by (unfold len; lia).
    rewrite app_nth2_plus, app_nth1 in Hascii by exact Hi.
    rewrite (nth_indep l1 d x00 Hi). apply Hascii. unfold len. lia. }
  rewrite fromProtocolPosition_line; [|assumption | destruct l1; discriminate].
  destruct (window_prefix l1 x l2 Hl1) as [w2 ->].
  pose proof (scan_ascii_prefix l1 x w2 HF (S (length (l1 ++ x :: w2))) 0 0
                ltac:(lia)) as Hs.
  rewrite !Z.add_0_l in Hs. rewrite Hs. f_equal. lia.
Qed.

Lemma C3_roundtrip_witness :
  lsp.fromProtocolPosition (source.fileOf 1 doc_ascii) (protocol.mkPosition 1 1)
  = Some (1 + 5).
Proof.
  assert (Ho : 0 <= 5 < len doc_ascii) by (unfold len; cbn; lia).
  destruct (C3_roundtrip_ascii_prefix 1 doc_ascii 5 Ho) as [_ Hback].
  apply (Hback (protocol.mkPosition 1 1)); [reflexivity|].
  cbn [protocol.Character]. intros k Hk.
  assert (Ek : k = 4) by lia. subst k. reflexivity.
Defined.

(** C5.  On a non-empty document [lineStart] of line 1 is the position of
    offset 0.  A line number beyond the line count of the file yields
    [NoPos], which is no position of an offset of the file: a valid [Pos] is
    at least the base of its file, and a base is at least 1. *)
Theorem C5_lineStart_bounds (b : positive) (content : list byte) :
  (content <> [] ->
   lsp.lineStart (source.fileOf b content) 1
   = token.FilePos (token.fileOf b content) 0) /\
  (forall line,
      token.LineCount (token.fileOf b content) < line ->
      lsp.lineStart (source.fileOf b content) line = Some token.NoPos) /\
  token.IsValid token.NoPos = false /\
  (forall o, 0 <= o ->
             token.FilePos (token.fileOf b content) o <> Some token.NoPos).
Proof.
  split; [|split; [|split]].
  - intros Hne. pose proof (lineStart_line b [] content (Forall_nil _) Hne) as H.
    cbn [joinLines map concat app] in H. rewrite len_nil in H.
    change (0 + 1) with 1 in H. rewrite H.
    rewrite FilePos_in by (cbn [token.fileOf token.size]; apply len_nonneg).
    reflexivity.
  - intros line Hline. apply lineStart_beyond, Hline.
  - reflexivity.
  - intros o Ho. unfold token.FilePos, token.NoPos.
    destruct (_ <? o); [discriminate|]. intros H.
    assert (H' : token.Base (token.fileOf b content) + o = 0) by congruence.
    pose proof (Base_pos (token.fileOf b content)). lia.
Qed.

Lemma C5_lineStart_witness :
  lsp.lineStart (source.fileOf 1 doc_ascii) 1 = Some 1 /\
  lsp.lineStart (source.fileOf 1 doc_ascii) 3 = Some token.NoPos.
Proof.
  destruct (C5_lineStart_bounds 1 doc_ascii) as (H1 & H2 & _).
  split.
  - rewrite H1 by discriminate. reflexivity.
  - apply H2. vm_compute. reflexivity.
Defined.



(** C7, as stated, fails.  The range whose two ends are the sentinel
    position (-1, -1) has an end with a negative line, and it is taken by the
    first case of the switch, [r.End == r.Start]: the end becomes the
    converted start, which is -1 and not [NoPos]. *)
Lemma C7_counterexample :
  protocol.Line (protocol.End (protocol.mkRange (protocol.mkPosition (-1) (-1))
                                                (protocol.mkPosition (-1) (-1)))) < 0 /\
  lsp.fromProtocolRange (source.fileOf 1 doc_ascii)
    (protocol.mkRange (protocol.mkPosition (-1) (-1)) (protocol.mkPosition (-1) (-1)))
  = Some (source.mkRange (-1) (-1)) /\
  -1 <> token.NoPos /\
  token.IsValid (-1) = true.
Proof.
  split; [cbn; lia|]. split; [reflexivity|]. split; [discriminate | reflexivity].
Qed.

(** C7 (amended).  For every protocol range whose end has a negative line and
    differs from its start, the conversion returns, with the converted start
    and with [NoPos] as its end: the absent position, not valid, and not the
    position of byte offset 0. *)
Theorem C7_open_end (b : positive) (content : list byte) (r : protocol.Range) :
  protocol.Line (protocol.End r) < 0 ->
  protocol.End r <> protocol.Start r ->
  exists start,
    lsp.fromProtocolPosition (source.fileOf b content) (protocol.Start r) = Some start /\
    lsp.fromProtocolRange (source.fileOf b content) r
    = Some (source.mkRange start token.NoPos) /\
    token.IsValid token.NoPos = false /\
    token.FilePos (token.fileOf b content) 0 <> Some token.NoPos.
Proof.
  intros Hneg Hdiff.
  destruct (fromProtocolPosition_total b content (protocol.Start r)) as [start Hstart].
  exists start. split; [exact Hstart|]. split; [|split; [reflexivity|]].
  - unfold lsp.fromProtocolRange, lsp.fromProtocolRangeC, lsp.fromProtocolPositionC.
    rewrite Hstart.
    destruct (protocol.Position_eqb (protocol.End r) (protocol.Start r)) eqn:E.
    { apply Position_eqb_eq in E. contradiction. }
    destruct (protocol.Line (protocol.End r) <? 0) eqn:E2;
      [reflexivity | apply Z.ltb_ge in E2; lia].
  - rewrite FilePos_in by (cbn [token.fileOf token.size]; apply len_nonneg).
    unfold token.NoPos. pose proof (Base_pos (token.fileOf b content)).
    intros Heq. assert (token.Base (token.fileOf b content) + 0 = 0) by congruence. lia.
Qed.

Lemma C7_open_end_witness :
  exists start,
    lsp.fromProtocolPosition (source.fileOf 1 doc_ascii) (protocol.mkPosition 0 1)
    = Some start /\
    lsp.fromProtocolRange (source.fileOf 1 doc_ascii)
      (protocol.mkRange (protocol.mkPosition 0 1) (protocol.mkPosition (-1) (-1)))
    = Some (source.mkRange start token.NoPos) /\
    token.IsValid token.NoPos = false /\
    token.FilePos (token.fileOf 1 doc_ascii) 0 <> Some token.NoPos.
Proof.
  apply (C7_open_end 1 doc_ascii
           (protocol.mkRange (protocol.mkPosition 0 1) (protocol.mkPosition (-1) (-1)))).
  - cbn. lia.
  - cbn. discriminate.
Defined.

(** C8.  For two offsets [o1 < o2] of a file, both conversions to a protocol
    position return, and when they yield the same line the character of the
    first is at most the character of the second. *)
Theorem C8_character_monotone (tok : token.File) (o1 o2 : Z) :
  0 <= o1 -> o1 < o2 -> o2 <= token.Size tok ->
  exists p1 p2,
    lsp.toProtocolPosition tok (token.Base tok + o1) = Some p1 /\
    lsp.toProtocolPosition tok (token.Base tok + o2) = Some p2 /\
    (protocol.Line p1 = protocol.Line p2 ->
     protocol.Character p1 <= protocol.Character p2).
Proof.
  intros H1 H12 H2. unfold token.Size in H2. pose proof (Base_pos tok) as Hb.
  destruct (FilePosition_in tok o1 ltac:(lia)) as (q1 & Hq1 & HL1 & HC1 & HD1).
  destruct (FilePosition_in tok o2 ltac:(lia)) as (q2 & Hq2 & HL2 & HC2 & HD2).
  exists (protocol.mkPosition (token.Line q1 - 1) (token.Column q1 - 1)),
         (protocol.mkPosition (token.Line q2 - 1) (token.Column q2 - 1)).
  unfold lsp.toProtocolPosition, token.IsValid, token.NoPos.
  destruct (token.Base tok + o1 =? 0) eqn:E1; [apply Z.eqb_eq in E1; lia|].
  destruct (token.Base tok + o2 =? 0) eqn:E2; [apply Z.eqb_eq in E2; lia|].
  cbn [negb]. rewrite Hq1, Hq2. split; [reflexivity|]. split; [reflexivity|].
  cbn [protocol.Line protocol.Character]. intros HL.
  assert (Hs : token.searchInts (token.lines tok) o1
               = token.searchInts (token.lines tok) o2) by lia.
  destruct (Z.le_gt_cases 0 (token.searchInts (token.lines tok) o2)) as [Hi|Hi].
  - rewrite HC1, HC2 by lia. rewrite Hs. lia.
  - rewrite HD1, HD2 by lia. lia.
Qed.

Lemma C8_character_witness :
  exists p1 p2,
    lsp.toProtocolPosition (token.fileOf 1 doc_ascii) (1 + 4) = Some p1 /\
    lsp.toProtocolPosition (token.fileOf 1 doc_ascii) (1 + 6) = Some p2 /\
    (protocol.Line p1 = protocol.Line p2 ->
     protocol.Character p1 <= protocol.Character p2).
Proof.
  apply (C8_character_monotone (token.fileOf 1 doc_ascii) 4 6).
  - lia.
  - lia.
  - vm_compute. discriminate.
Defined.

(** C9.  For every protocol range whose end equals its start, the conversion
    returns a range whose end is its start, the conversion of the start, and
    it makes one position conversion, hence one column scan, in all. *)
Theorem C9_cursor_range (b : positive) (content : list byte) (r : protocol.Range) :
  protocol.End r = protocol.Start r ->
  exists start,
    lsp.fromProtocolPosition (source.fileOf b content) (protocol.Start r) = Some start /\
    lsp.fromProtocolRangeC (source.fileOf b content) r
    = Some (source.mkRange start start, 1%nat) /\
    lsp.fromProtocolRange (source.fileOf b content) r
    = Some (source.mkRange start start).
Proof.
  intros Heq.
  destruct (fromProtocolPosition_total b content (protocol.Start r)) as [start Hstart].
  exists start. split; [exact Hstart|].
  assert (HC : lsp.fromProtocolRangeC (source.fileOf b content) r
               = Some (source.mkRange start start, 1%nat)).
  { unfold lsp.fromProtocolRangeC, lsp.fromProtocolPositionC. rewrite Hstart.
    apply Position_eqb_eq in Heq. rewrite Heq. reflexivity. }
  split; [exact HC|]. unfold lsp.fromProtocolRange. rewrite HC. reflexivity.
Qed.

Lemma C9_cursor_range_witness :
  exists start,
    lsp.fromProtocolPosition (source.fileOf 1 doc_ascii) (protocol.mkPosition 1 1)
    = Some start /\
    lsp.fromProtocolRangeC (source.fileOf 1 doc_ascii)
      (protocol.mkRange (protocol.mkPosition 1 1) (protocol.mkPosition 1 1))
    = Some (source.mkRange start start, 1%nat) /\
    lsp.fromProtocolRange (source.fileOf 1 doc_ascii)
      (protocol.mkRange (protocol.mkPosition 1 1) (protocol.mkPosition 1 1))
    = Some (source.mkRange start start).
Proof.
  apply (C9_cursor_range 1 doc_ascii
           (protocol.mkRange (protocol.mkPosition 1 1) (protocol.mkPosition 1 1))).
  reflexivity.
Defined.

(** For contrast with C9: a range with two different ends, the second on a
    non-negative line, costs two position conversions. *)
Lemma fromProtocolRangeC_two_conversions
      (b : positive) (content : list byte) (r : protocol.Range) :
  protocol.End r <> protocol.Start r ->
  0 <= protocol.Line (protocol.End r) ->
  exists rg, lsp.fromProtocolRangeC (source.fileOf b content) r = Some (rg, 2%nat).
Proof.
  intros Hdiff Hline.
  destruct (fromProtocolPosition_total b content (protocol.Start r)) as [s Hs].
  destruct (fromProtocolPosition_total b content (protocol.End r)) as [e He].
  unfold lsp.fromProtocolRangeC, lsp.fromProtocolPositionC. rewrite Hs.
  destruct (protocol.Position_eqb (protocol.End r) (protocol.Start r)) eqn:E.
  { apply Position_eqb_eq in E. contradiction. }
  destruct (protocol.Line (protocol.End r) <? 0) eqn:E2; [apply Z.ltb_lt in E2; lia|].
  rewrite He. eexists. reflexivity.
Qed.

(** C10.  Line [length ls] of the document is [l] closed by a newline, and
    [utf16len l] is its UTF-16 length.  Every column up to that length
    converts to an offset inside the line or at its newline; the column equal
    to the length converts to the offset of the newline byte; and -1 is the
    result exactly for the columns beyond the length. *)
Theorem C10_newline_in_window
        (b : positive) (ls : list (list byte)) (l post : list byte) (c : Z) :
  Forall nonl ls -> nonl l ->
  (c <= utf16len l ->
   exists v,
     lsp.columnOffset (joinLines ls ++ l ++ NL :: post)
                      (protocol.mkPosition (len ls) c) = Some v /\
     0 <= v <= len l /\
     lsp.fromProtocolPosition (source.fileOf b (joinLines ls ++ l ++ NL :: post))
                              (protocol.mkPosition (len ls) c)
     = Some (Z.pos b + (len (joinLines ls) + v))) /\
  (c = utf16len l ->
   lsp.columnOffset (joinLines ls ++ l ++ NL :: post)
                    (protocol.mkPosition (len ls) c) = Some (len l) /\
   nth (Z.to_nat (len (joinLines ls) + len l)) (joinLines ls ++ l ++ NL :: post) x00
   = NL) /\
  (lsp.columnOffset (joinLines ls ++ l ++ NL :: post)
                    (protocol.mkPosition (len ls) c) = Some (-1)
   <-> utf16len l < c).
Proof.
  intros Hls Hl.
  assert (Hne : l ++ NL :: post <> []) by (destruct l; discriminate).
  rewrite fromProtocolPosition_line, columnOffset_line by assumption.
  rewrite window_line by exact Hl.
  destruct (scan_line (S (length (l ++ [NL]))) l 0 0 c ltac:(lia)) as (S1 & S2 & S3).
  rewrite !Z.add_0_l in *.
  pose proof (len_nonneg _ l) as Hlen.
  split; [|split; [|split]].
  - intros Hc. destruct (S3 Hc) as (v & Hv & Hrange). exists v.
    rewrite Hv. split; [reflexivity|]. split; [lia|]. f_equal. lia.
  - intros Hc. split; [exact (S2 Hc)|].
    replace (Z.to_nat (len (joinLines ls) + len l))
      with (length (joinLines ls) + length l)%nat by (unfold len; lia).
    rewrite app_nth2_plus. apply nth_middle.
  - intros Hm. destruct (Z.lt_ge_cases (utf16len l) c) as [|Hc]; [assumption|].
    destruct (S3 ltac:(lia)) as (v & Hv & Hrange). rewrite Hv in Hm.
    assert (v = -1) by congruence. lia.
  - exact S1.
Qed.

Lemma C10_newline_witness :
  utf16len [x61; xf0; x9f; x99; x82; x62] = 4 /\
  lsp.columnOffset doc_emoji (protocol.mkPosition 0 4) = Some 6 /\
  nth 6 doc_emoji x00 = NL /\
  lsp.columnOffset doc_emoji (protocol.mkPosition 0 5) = Some (-1).
Proof.
  assert (Hls : Forall nonl []) by constructor.
  assert (Hl : nonl [x61; xf0; x9f; x99; x82; x62]).
  { intros H. cbn in H. intuition discriminate. }
  split; [reflexivity|].
  destruct (C10_newline_in_window 1 [] [x61; xf0; x9f; x99; x82; x62] [] 4 Hls Hl)
    as (_ & Heq & _).
  destruct (C10_newline_in_window 1 [] [x61; xf0; x9f; x99; x82; x62] [] 5 Hls Hl)
    as (_ & _ & Hiff).
  destruct (Heq eq_refl) as [Hc Hn].
  split; [exact Hc|]. split; [exact Hn|].
  apply Hiff. reflexivity.
Defined.

(** * Further properties of the conversion layer *)

(** ** The line table is sorted, inside the text, and made of line starts *)

Lemma lineTable_below (s : list byte) :
  forall off, Forall (fun e => e < off + len s) (token.lineTable off s).
Proof.
  induction s as [|b s IH]; intros off; cbn [token.lineTable]; [constructor|].
  rewrite len_cons.
  assert (Hs : Forall (fun e => e < off + (1 + len s)) (token.lineTable (off + 1) s)).
  { eapply Forall_impl; [|apply (IH (off + 1))]. intros e He; cbv beta in *; lia. }
  destruct (Byte.eqb b NL); [|exact Hs].
  destruct s as [|b' s']; constructor; [|exact Hs].
  rewrite len_cons. pose proof (len_nonneg _ s'). lia.
Qed.

Lemma lineTable_sorted (s : list byte) :
  forall off, StronglySorted Z.lt (token.lineTable off s).
Proof.
  induction s as [|b s IH]; intros off; cbn [token.lineTable]; [constructor|].
  destruct (Byte.eqb b NL); [|apply IH].
  destruct s as [|b' s']; constructor; [apply IH | apply lineTable_above].
Qed.

Lemma lines_sorted (b : positive) (content : list byte) :
  StronglySorted Z.lt (token.lines (token.fileOf b content)).
Proof.
  cbn [token.fileOf token.lines]. constructor;
    [apply lineTable_sorted | apply lineTable_above].
Qed.

(** Each entry of the table other than the first is the offset just after a
    newline byte. *)
Lemma lineTable_after_newline (s : list byte) :
  forall off,
    Forall (fun e => nth (Z.to_nat (e - off - 1)) s x00 = NL) (token.lineTable off s).
Proof.
  induction s as [|b s IH]; intros off; cbn [token.lineTable]; [constructor|].
  assert (Hs : Forall (fun e => nth (Z.to_nat (e - off - 1)) (b :: s) x00 = NL)
                      (token.lineTable (off + 1) s)).
  { pose proof (IH (off + 1)) as H1. pose proof (lineTable_above s (off + 1)) as H2.
    rewrite Forall_forall in *. intros e He.
    specialize (H1 e He). specialize (H2 e He). cbv beta in *.
    replace (Z.to_nat (e - off - 1)) with (S (Z.to_nat (e - (off + 1) - 1))) by lia.
    exact H1. }
  destruct (Byte.eqb b NL) eqn:E; [|exact Hs].
  destruct s as [|b' s']; constructor; [|exact Hs].
  replace (off + 1 - off - 1) with 0 by lia. apply eqb_NL_true, E.
Qed.

Lemma searchInts_nth (a : list Z) :
  StronglySorted Z.lt a ->
  forall k, (k < length a)%nat -> token.searchInts a (nth k a 0) = Z.of_nat k.
Proof.
  induction 1 as [|y a Hs IH Hy]; intros k Hk; [cbn in Hk; lia|].
  destruct k as [|k].
  - cbn [nth]. rewrite searchInts_cons_le by lia.
    rewrite searchInts_all_above by exact Hy. reflexivity.
  - cbn [nth length] in *.
    assert (Hin : In (nth k a 0) a) by (apply nth_In; lia).
    rewrite Forall_forall in Hy. specialize (Hy _ Hin).
    rewrite searchInts_cons_le by lia. rewrite IH by lia. lia.
Qed.

Lemma lines_first (b : positive) (content : list byte) (o : Z) :
  0 <= o -> 0 <= token.searchInts (token.lines (token.fileOf b content)) o.
Proof.
  intros Ho. cbn [token.fileOf token.lines]. rewrite searchInts_cons_le by lia.
  pose proof (searchInts_lower (token.lineTable 0 content) o). lia.
Qed.

Lemma lines_nth_range (b : positive) (content : list byte) (k : nat) :
  content <> [] ->
  (k < length (token.lines (token.fileOf b content)))%nat ->
  0 <= nth k (token.lines (token.fileOf b content)) 0 < len content.
Proof.
  intros Hne Hk. cbn [token.fileOf token.lines] in *.
  pose proof (len_pos _ content Hne).
  destruct k as [|k]; [cbn [nth]; lia|]. cbn [nth length] in *.
  assert (Hin : In (nth k (token.lineTable 0 content) 0) (token.lineTable 0 content))
    by (apply nth_In; lia).
  pose proof (lineTable_above content 0) as Ha.
  pose proof (lineTable_below content 0) as Hb.
  rewrite Forall_forall in Ha, Hb. specialize (Ha _ Hin). specialize (Hb _ Hin).
  cbv beta in *. lia.
Qed.

Lemma lineStart_empty (b : positive) (line : Z) :
  lsp.lineStart (source.fileOf b []) line
  = Some (if line =? 1 then Z.pos b else token.NoPos).
Proof.
  rewrite lineStart_unfold. cbn [length lsp.lineStart_loop].
  change (Z.quot (0 + len (@nil byte)) 2) with 0.
  rewrite FilePos_in by (cbn; lia).
  destruct (FilePosition_in (token.fileOf b []) 0 ltac:(cbn; lia))
    as (posn & -> & HL & HC & _).
  change (token.searchInts (token.lines (token.fileOf b [])) 0) with 0 in HL, HC.
  specialize (HC ltac:(lia)). cbn in HC. rewrite HL, HC.
  change (0 + 1) with 1. rewrite (Z.eqb_sym 1 line).
  destruct (line =? 1); [|reflexivity].
  change (token.Base (token.fileOf b [])) with (Z.pos b). f_equal; lia.
Qed.

Lemma lineStart_lookup (b : positive) (content : list byte) (line : Z) :
  lsp.lineStart (source.fileOf b content) line
  = Some (if (1 <=? line) && (line <=? token.LineCount (token.fileOf b content))
          then Z.pos b + nth (Z.to_nat (line - 1)) (token.lines (token.fileOf b content)) 0
          else token.NoPos).
Proof.
  destruct ((1 <=? line) && (line <=? token.LineCount (token.fileOf b content))) eqn:E.
  - apply andb_true_iff in E. destruct E as [E1 E2].
    apply Z.leb_le in E1. apply Z.leb_le in E2. unfold token.LineCount, len in E2.
    destruct content as [|c0 content'] eqn:Ec.
    + cbn in E2. assert (line = 1) by lia. subst line.
      rewrite lineStart_empty. cbn. f_equal; lia.
    + rewrite <- Ec in *. assert (Hne : content <> []) by (rewrite Ec; discriminate).
      rewrite lineStart_unfold.
      pose proof (lines_nth_range b content (Z.to_nat (line - 1)) Hne ltac:(lia)) as Hr.
      apply (lineStart_loop_found (token.fileOf b content) line
               (nth (Z.to_nat (line - 1)) (token.lines (token.fileOf b content)) 0)).
      * lia.
      * rewrite searchInts_nth by (apply lines_sorted || lia). lia.
      * reflexivity.
      * lia.
      * cbn [token.fileOf token.size]. lia.
      * unfold len in *. lia.
  - rewrite lineStart_unfold. pose proof (len_nonneg _ content).
    apply lineStart_loop_absent.
    + intros o Ho Hl.
      pose proof (lines_first b content o ltac:(lia)).
      pose proof (searchInts_upper (token.lines (token.fileOf b content)) o).
      unfold token.LineCount in E.
      apply andb_false_iff in E. destruct E as [E|E];
        [apply Z.leb_gt in E | apply Z.leb_gt in E]; lia.
    + lia.
    + cbn [token.fileOf token.size]. lia.
    + unfold len. lia.
    + lia.
Qed.

(** X1.  The binary search of [lineStart] agrees with a lookup in the line
    table: a line from 1 to the line count yields the position of its table
    entry, every other line number yields [NoPos]. *)
Theorem X1_lineStart_table_lookup (b : positive) (content : list byte) (line : Z) :
  lsp.lineStart (source.fileOf b content) line
  = Some (if (1 <=? line) && (line <=? token.LineCount (token.fileOf b content))
          then Z.pos b + nth (Z.to_nat (line - 1)) (token.lines (token.fileOf b content)) 0
          else token.NoPos).
Proof. apply lineStart_lookup. Qed.

(** X2.  Whatever line is asked for, [lineStart] returns either [NoPos] or the
    position of a line start: offset 0, or an offset inside the document
    whose preceding byte is a newline. *)
Theorem X2_lineStart_is_line_start
        (b : positive) (content : list byte) (line : Z) (p : token.Pos) :
  lsp.lineStart (source.fileOf b content) line = Some p ->
  p = token.NoPos \/
  exists o,
    p = Z.pos b + o /\
    (o = 0 \/ (0 < o < len content /\ nth (Z.to_nat (o - 1)) content x00 = NL)).
Proof.
  rewrite lineStart_lookup. intros H.
  destruct ((1 <=? line) && (line <=? token.LineCount (token.fileOf b content))) eqn:E;
    [|left; congruence].
  right. eexists. split; [symmetry; injection H as H; exact H|].
  apply andb_true_iff in E. destruct E as [E1 E2].
  apply Z.leb_le in E1. apply Z.leb_le in E2. unfold token.LineCount, len in E2.
  cbn [token.fileOf token.lines] in *. cbn [length] in E2.
  destruct (Z.to_nat (line - 1)) as [|k] eqn:Ek; [left; reflexivity|]. right.
  cbn [nth].
  assert (Hin : In (nth k (token.lineTable 0 content) 0) (token.lineTable 0 content))
    by (apply nth_In; lia).
  pose proof (lineTable_above content 0) as Ha.
  pose proof (lineTable_below content 0) as Hb.
  pose proof (lineTable_after_newline content 0) as Hc.
  rewrite Forall_forall in Ha, Hb, Hc.
  specialize (Ha _ Hin). specialize (Hb _ Hin). specialize (Hc _ Hin). cbv beta in *.
  split; [lia|]. rewrite Z.sub_0_r in Hc. exact Hc.
Qed.

Lemma X2_lineStart_witness :
  5 = token.NoPos \/
  exists o,
    5 = 1 + o /\
    (o = 0 \/ (0 < o < len doc_ascii /\ nth (Z.to_nat (o - 1)) doc_ascii x00 = NL)).
Proof.
  apply (X2_lineStart_is_line_start 1 doc_ascii 2 5). reflexivity.
Defined.

(** ** Counting lines *)

Lemma newlines_app (s t : list byte) : newlines (s ++ t) = newlines s + newlines t.
Proof. unfold newlines. rewrite count_occ_app. lia. Qed.

Lemma newlines_nonl (l : list byte) : nonl l -> newlines l = 0.
Proof.
  intros H. unfold newlines.
  rewrite (proj1 (count_occ_not_In Byte.byte_eq_dec l NL) H). reflexivity.
Qed.

Lemma newlines_NL_cons (s : list byte) : newlines (NL :: s) = 1 + newlines s.
Proof.
  unfold newlines. rewrite count_occ_cons_eq by reflexivity. lia.
Qed.

Lemma newlines_joinLines (ls : list (list byte)) :
  Forall nonl ls -> newlines (joinLines ls) = len ls.
Proof.
  induction 1 as [|l ls Hl _ IH]; [reflexivity|].
  rewrite joinLines_cons, newlines_app, newlines_NL_cons, newlines_nonl, IH, len_cons
    by assumption. lia.
Qed.

Lemma joinLines_app (ls1 ls2 : list (list byte)) :
  joinLines (ls1 ++ ls2) = joinLines ls1 ++ joinLines ls2.
Proof. unfold joinLines. rewrite map_app, concat_app. reflexivity. Qed.

Lemma lineTable_nonl (l : list byte) (off : Z) : nonl l -> token.lineTable off l = [].
Proof.
  revert off. induction l as [|b l IH]; intros off Hl; [reflexivity|].
  apply nonl_cons in Hl. destruct Hl as [Hb Hl].
  cbn [token.lineTable]. rewrite (eqb_NL_false _ Hb). apply IH, Hl.
Qed.

Lemma lineTable_last_line (l : list byte) (off : Z) :
  nonl l -> token.lineTable off (l ++ [NL]) = [].
Proof.
  revert off. induction l as [|b l IH]; intros off Hl; [reflexivity|].
  apply nonl_cons in Hl. destruct Hl as [Hb Hl].
  cbn [app token.lineTable]. rewrite (eqb_NL_false _ Hb). apply IH, Hl.
Qed.

(** The table has one entry per line that has at least one byte, and always
    the entry of the first line. *)
Lemma lineTable_length (ls : list (list byte)) (l1 : list byte) :
  Forall nonl ls -> nonl l1 ->
  forall off,
    length (token.lineTable off (joinLines ls ++ l1))
    = match l1 with
      | [] => (length ls - 1)%nat
      | _ :: _ => length ls
      end.
Proof.
  intros Hls Hl1. induction Hls as [|l ls Hl Hls IH]; intros off.
  - cbn [joinLines map concat app]. rewrite lineTable_nonl by exact Hl1.
    destruct l1; reflexivity.
  - rewrite joinLines_cons_app.
    destruct (joinLines ls ++ l1) as [|c more] eqn:Emore.
    + rewrite lineTable_last_line by exact Hl.
      apply app_eq_nil in Emore. destruct Emore as [Ej ->].
      destruct ls as [|l' ls']; [reflexivity|].
      rewrite joinLines_cons in Ej. destruct l'; discriminate.
    + rewrite lineTable_line by (exact Hl || discriminate).
      cbn [length]. rewrite IH.
      destruct l1; [|reflexivity].
      destruct ls as [|l' ls']; [|cbn [length]; lia].
      cbn in Emore. discriminate.
Qed.

Lemma LineCount_lines (b : positive) (ls : list (list byte)) (l1 : list byte) :
  Forall nonl ls -> nonl l1 ->
  token.LineCount (token.fileOf b (joinLines ls ++ l1))
  = match l1 with
    | [] => Z.max 1 (len ls)
    | _ :: _ => len ls + 1
    end.
Proof.
  intros Hls Hl1. unfold token.LineCount, len. cbn [token.fileOf token.lines length].
  rewrite lineTable_length by assumption. destruct l1; lia.
Qed.

(** The line count never exceeds the number of newlines plus one. *)
Lemma LineCount_newlines (b : positive) (content : list byte) :
  1 <= token.LineCount (token.fileOf b content) <= newlines content + 1.
Proof.
  destruct (split_lines content) as (ls & l1 & Hls & Hl1 & ->).
  rewrite LineCount_lines, newlines_app, newlines_joinLines, newlines_nonl by assumption.
  pose proof (len_nonneg _ ls). destruct l1; lia.
Qed.

(** ** Lines that the column scan cannot reach *)

Lemma skipLines_unreachable (ls : list (list byte)) (l1 : list byte) :
  Forall nonl ls -> nonl l1 ->
  forall fuel line,
    (length (joinLines ls ++ l1) < fuel)%nat ->
    line < 0 \/ len ls < line ->
    lsp.skipLines fuel (joinLines ls ++ l1) line = Some (inl (-1)) \/
    lsp.skipLines fuel (joinLines ls ++ l1) line = Some (inr []).
Proof.
  intros Hls Hl1. induction Hls as [|l ls Hl _ IH]; intros fuel line Hfuel Hline;
    (destruct fuel as [|fuel]; [lia|]).
  - cbn [joinLines map concat app lsp.skipLines] in *. rewrite len_nil in Hline.
    destruct l1 as [|c l1']; [right; reflexivity|]. rewrite len_pos_ltb.
    destruct (line =? 0) eqn:E; [apply Z.eqb_eq in E; lia|].
    rewrite IndexByte_absent by exact Hl1. left. reflexivity.
  - rewrite joinLines_cons_app in *. cbn [lsp.skipLines].
    rewrite len_cons in Hline. pose proof (len_nonneg _ ls).
    assert (Hpos : (0 <? len (l ++ NL :: joinLines ls ++ l1)) = true).
    { apply Z.ltb_lt. rewrite len_app, len_cons.
      pose proof (len_nonneg _ l). pose proof (len_nonneg _ (joinLines ls ++ l1)). lia. }
    rewrite Hpos.
    destruct (line =? 0) eqn:E; [apply Z.eqb_eq in E; lia|].
    rewrite IndexByte_first by exact Hl. pose proof (len_nonneg _ l).
    destruct (len l <? 0) eqn:E2; [apply Z.ltb_lt in E2; lia|].
    rewrite slice_from_line. apply IH; [|lia].
    rewrite length_app in Hfuel. cbn [length] in Hfuel. lia.
Qed.

Lemma columnOffset_unreachable (content : list byte) (pos : protocol.Position) :
  protocol.Line pos < 0 \/ newlines content < protocol.Line pos ->
  lsp.columnOffset content pos = Some (-1).
Proof.
  intros Hline.
  destruct (split_lines content) as (ls & l1 & Hls & Hl1 & ->).
  rewrite newlines_app, newlines_joinLines, newlines_nonl in Hline by assumption.
  unfold lsp.columnOffset.
  destruct (skipLines_unreachable ls l1 Hls Hl1 (S (length (joinLines ls ++ l1)))
              (protocol.Line pos) ltac:(lia) ltac:(lia)) as [-> | ->]; reflexivity.
Qed.

Lemma position_outside_document
        (b : positive) (content : list byte) (pos : protocol.Position) :
  protocol.Line pos < 0 \/ newlines content < protocol.Line pos ->
  lsp.columnOffset content pos = Some (-1) /\
  lsp.lineStart (source.fileOf b content) (protocol.Line pos + 1) = Some token.NoPos /\
  lsp.fromProtocolPosition (source.fileOf b content) pos = Some (-1) /\
  token.IsValid (-1) = true.
Proof.
  intros Hline.
  assert (Hc : lsp.columnOffset content pos = Some (-1))
    by (apply columnOffset_unreachable, Hline).
  assert (Hs : lsp.lineStart (source.fileOf b content) (protocol.Line pos + 1)
               = Some token.NoPos).
  { rewrite lineStart_lookup. pose proof (LineCount_newlines b content).
    destruct ((1 <=? protocol.Line pos + 1)
              && (protocol.Line pos + 1 <=? token.LineCount (token.fileOf b content))) eqn:E;
      [|reflexivity].
    apply andb_true_iff in E. destruct E as [E1 E2].
    apply Z.leb_le in E1. apply Z.leb_le in E2. lia. }
  split; [exact Hc|]. split; [exact Hs|]. split; [|reflexivity].
  unfold lsp.fromProtocolPosition. rewrite Hs.
  cbn [source.fileOf source.GetContent]. rewrite Hc. reflexivity.
Qed.

(** X3.  For a negative line, and for a line beyond the last newline of the
    document, [columnOffset] returns -1 whatever the column, [lineStart]
    finds no line, and [fromProtocolPosition] returns their sum -1: not
    [NoPos], and no position of the file. *)
Theorem X3_position_outside_document
        (b : positive) (content : list byte) (pos : protocol.Position) :
  protocol.Line pos < 0 \/ newlines content < protocol.Line pos ->
  lsp.columnOffset content pos = Some (-1) /\
  lsp.lineStart (source.fileOf b content) (protocol.Line pos + 1) = Some token.NoPos /\
  lsp.fromProtocolPosition (source.fileOf b content) pos = Some (-1) /\
  token.IsValid (-1) = true.
Proof. apply position_outside_document. Qed.

Lemma X3_position_outside_witness :
  lsp.columnOffset doc_ascii (protocol.mkPosition 3 0) = Some (-1) /\
  lsp.lineStart (source.fileOf 1 doc_ascii) (3 + 1) = Some token.NoPos /\
  lsp.fromProtocolPosition (source.fileOf 1 doc_ascii) (protocol.mkPosition 3 0)
  = Some (-1) /\
  token.IsValid (-1) = true.
Proof.
  apply (X3_position_outside_document 1 doc_ascii (protocol.mkPosition 3 0)).
  right. vm_compute. reflexivity.
Defined.

Lemma line_after_final_newline
        (b : positive) (ls : list (list byte)) (c : Z) :
  Forall nonl ls -> ls <> [] ->
  lsp.lineStart (source.fileOf b (joinLines ls)) (len ls + 1) = Some token.NoPos /\
  lsp.columnOffset (joinLines ls) (protocol.mkPosition (len ls) c) = Some (-1) /\
  lsp.fromProtocolPosition (source.fileOf b (joinLines ls)) (protocol.mkPosition (len ls) c)
  = Some (-1).
Proof.
  intros Hls Hne.
  assert (Hs : lsp.lineStart (source.fileOf b (joinLines ls)) (len ls + 1)
               = Some token.NoPos).
  { apply lineStart_beyond.
    pose proof (LineCount_lines b ls [] Hls (fun H => H)) as HL.
    rewrite app_nil_r in HL. rewrite HL.
    destruct ls; [congruence|]. rewrite len_cons. pose proof (len_nonneg _ ls). lia. }
  assert (Hc : lsp.columnOffset (joinLines ls) (protocol.mkPosition (len ls) c)
               = Some (-1)).
  { pose proof (columnOffset_line ls [] c Hls) as H. rewrite app_nil_r in H.
    rewrite H. reflexivity. }
  split; [exact Hs|]. split; [exact Hc|].
  unfold lsp.fromProtocolPosition. cbn [protocol.Line]. rewrite Hs.
  cbn [source.fileOf source.GetContent]. rewrite Hc. reflexivity.
Qed.

(** X4.  When the document ends in a newline, the empty line after it cannot
    be converted: [lineStart] finds no such line (the search stops short of
    the size of the file), the column scan has no byte to read, and
    [fromProtocolPosition] returns -1 for every column, column 0 included. *)
Theorem X4_line_after_final_newline
        (b : positive) (ls : list (list byte)) (c : Z) :
  Forall nonl ls -> ls <> [] ->
  lsp.lineStart (source.fileOf b (joinLines ls)) (len ls + 1) = Some token.NoPos /\
  lsp.columnOffset (joinLines ls) (protocol.mkPosition (len ls) c) = Some (-1) /\
  lsp.fromProtocolPosition (source.fileOf b (joinLines ls)) (protocol.mkPosition (len ls) c)
  = Some (-1).
Proof. apply line_after_final_newline. Qed.

Lemma X4_line_after_final_newline_witness :
  lsp.lineStart (source.fileOf 1 doc_ascii) 3 = Some token.NoPos /\
  lsp.columnOffset doc_ascii (protocol.mkPosition 2 0) = Some (-1) /\
  lsp.fromProtocolPosition (source.fileOf 1 doc_ascii) (protocol.mkPosition 2 0)
  = Some (-1).
Proof.
  apply (X4_line_after_final_newline 1 [[x61; x62; x63]; [x64; x65; x66]] 0).
  - repeat constructor; intros H; cbn in H; intuition discriminate.
  - discriminate.
Defined.

(** ** The scan over an arbitrary window *)

(** The scan fails exactly when the column is at least the UTF-16 length of
    the window, and otherwise stops inside the window. *)
Lemma scan_window (fuel : nat) :
  forall w char offset character,
    (length w < fuel)%nat ->
    (char + utf16len w <= character ->
     lsp.scan fuel w char offset character = Some (-1)) /\
    (character < char + utf16len w -> char <= character \/ w <> [] ->
     exists v, lsp.scan fuel w char offset character = Some v /\
               offset <= v < offset + len w).
Proof.
  induction fuel as [|fuel IH]; intros w char offset character Hfuel; [lia|].
  destruct w as [|c0 p].
  - rewrite scan_nil, utf16len_nil.
    split; [reflexivity | intros H [H'|H']; [lia | congruence]].
  - rewrite scan_step, utf16len_cons.
    pose proof (DecodeRune_size c0 p) as Hsize.
    destruct (utf8.DecodeRune (c0 :: p)) as [r size]. cbn [fst snd] in *.
    pose proof (utf16Units_range r) as Hu.
    set (w' := slice_from size (c0 :: p)) in *.
    assert (Hlen : len w' = len (c0 :: p) - size) by (apply slice_from_length; lia).
    pose proof (utf16len_nonneg w') as Hn. pose proof (len_nonneg _ w') as Hw'.
    assert (Hfuel' : (length w' < fuel)%nat).
    { unfold len in Hlen. cbn [length] in *. lia. }
    destruct (IH w' (char + utf16Units r) (offset + size) character Hfuel') as (IH1 & IH2).
    destruct (character <? char + utf16Units r) eqn:E;
      [apply Z.ltb_lt in E | apply Z.ltb_ge in E]; split; intros H.
    + lia.
    + intros _. exists offset. split; [reflexivity | lia].
    + apply IH1. lia.
    + intros _. destruct (IH2 ltac:(lia) ltac:(left; lia)) as (v & -> & Hv).
      exists v. split; [reflexivity | lia].
Qed.

(** X5.  On a last line that has bytes but no newline, a column converts
    exactly when it is below the UTF-16 length of the line: the column at the
    end of the line is refused with -1, unlike on a line closed by a
    newline. *)
Theorem X5_unterminated_last_line
        (b : positive) (ls : list (list byte)) (l : list byte) (c : Z) :
  Forall nonl ls -> nonl l -> l <> [] ->
  (lsp.columnOffset (joinLines ls ++ l) (protocol.mkPosition (len ls) c) = Some (-1)
   <-> utf16len l <= c) /\
  (c < utf16len l ->
   exists v,
     lsp.columnOffset (joinLines ls ++ l) (protocol.mkPosition (len ls) c) = Some v /\
     0 <= v < len l /\
     lsp.fromProtocolPosition (source.fileOf b (joinLines ls ++ l))
                              (protocol.mkPosition (len ls) c)
     = Some (Z.pos b + (len (joinLines ls) + v))).
Proof.
  intros Hls Hl Hne.
  rewrite fromProtocolPosition_line, columnOffset_line by assumption.
  rewrite window_nonl by exact Hl.
  destruct (scan_window (S (length l)) l 0 0 c ltac:(lia)) as (S1 & S2).
  rewrite !Z.add_0_l in *.
  split; [split|].
  - intros Hm. destruct (Z.le_gt_cases (utf16len l) c) as [|Hc]; [assumption|].
    destruct (S2 ltac:(lia) (or_intror Hne)) as (v & Hv & Hrange). rewrite Hv in Hm.
    assert (v = -1) by congruence. lia.
  - exact S1.
  - intros Hc. destruct (S2 Hc (or_intror Hne)) as (v & Hv & Hrange). exists v.
    rewrite Hv. split; [reflexivity|]. split; [lia|]. f_equal. lia.
Qed.

Lemma X5_unterminated_witness :
  lsp.columnOffset [x61; x62; x0a; x63; x64] (protocol.mkPosition 1 2) = Some (-1) /\
  exists v,
    lsp.columnOffset [x61; x62; x0a; x63; x64] (protocol.mkPosition 1 1) = Some v /\
    0 <= v < 2 /\
    lsp.fromProtocolPosition (source.fileOf 1 [x61; x62; x0a; x63; x64])
                             (protocol.mkPosition 1 1)
    = Some (1 + (3 + v)).
Proof.
  assert (Hls : Forall nonl [[x61; x62]]) by exact nonl_lines_ab.
  assert (Hl : nonl [x63; x64]) by (intros H; cbn in H; intuition discriminate).
  assert (Hne : [x63; x64] <> []) by discriminate.
  destruct (X5_unterminated_last_line 1 [[x61; x62]] [x63; x64] 2 Hls Hl Hne) as [Hiff _].
  destruct (X5_unterminated_last_line 1 [[x61; x62]] [x63; x64] 1 Hls Hl Hne) as [_ Hok].
  split.
  - apply Hiff. vm_compute. discriminate.
  - apply Hok. reflexivity.
Defined.

(** ** Order and rune boundaries *)

Lemma scan_lower (fuel : nat) :
  forall w char offset character v,
    lsp.scan fuel w char offset character = Some v ->
    v = -1 \/ offset <= v.
Proof.
  induction fuel as [|fuel IH]; intros w char offset character v H; [discriminate|].
  destruct w as [|c0 p].
  - rewrite scan_nil in H. left. congruence.
  - rewrite scan_step in H.
    pose proof (DecodeRune_size c0 p) as Hsize.
    destruct (utf8.DecodeRune (c0 :: p)) as [r size]. cbn [snd] in Hsize.
    destruct (character <? char + utf16Units r).
    + right. assert (v = offset) by congruence. lia.
    + destruct (IH _ _ _ _ _ H) as [|]; [left; assumption | right; lia].
Qed.

Lemma scan_mono (fuel : nat) :
  forall w char offset c1 c2 v1 v2,
    c1 <= c2 ->
    lsp.scan fuel w char offset c1 = Some v1 ->
    lsp.scan fuel w char offset c2 = Some v2 ->
    0 <= offset -> 0 <= v2 ->
    offset <= v1 <= v2.
Proof.
  induction fuel as [|fuel IH]; intros w char offset c1 c2 v1 v2 Hc H1 H2 Ho Hv2;
    [discriminate|].
  destruct w as [|c0 p].
  - rewrite scan_nil in H2. assert (v2 = -1) by congruence. lia.
  - rewrite scan_step in H1, H2.
    pose proof (DecodeRune_size c0 p) as Hsize.
    destruct (utf8.DecodeRune (c0 :: p)) as [r size]. cbn [snd] in Hsize.
    destruct (c1 <? char + utf16Units r) eqn:E1;
      [apply Z.ltb_lt in E1 | apply Z.ltb_ge in E1].
    + assert (v1 = offset) by congruence. subst v1.
      destruct (c2 <? char + utf16Units r).
      * assert (v2 = offset) by congruence. lia.
      * destruct (scan_lower _ _ _ _ _ _ H2); lia.
    + destruct (c2 <? char + utf16Units r) eqn:E2; [apply Z.ltb_lt in E2; lia|].
      pose proof (IH _ _ _ _ _ _ _ Hc H1 H2 ltac:(lia) Hv2). lia.
Qed.

(** X6.  On one line the conversion is monotone in the column: when a column
    converts to an offset, every smaller column converts too, to an offset
    that is not larger. *)
Theorem X6_columnOffset_monotone
        (content : list byte) (line c1 c2 v1 v2 : Z) :
  c1 <= c2 ->
  lsp.columnOffset content (protocol.mkPosition line c1) = Some v1 ->
  lsp.columnOffset content (protocol.mkPosition line c2) = Some v2 ->
  0 <= v2 ->
  0 <= v1 <= v2.
Proof.
  unfold lsp.columnOffset. cbn [protocol.Line protocol.Character].
  intros Hc H1 H2 Hv2.
  destruct (lsp.skipLines (S (length content)) content line) as [[v|rest]|];
    [| |discriminate].
  - assert (v1 = v) by congruence. assert (v2 = v) by congruence. lia.
  - exact (scan_mono _ _ _ _ _ _ _ _ Hc H1 H2 ltac:(lia) Hv2).
Qed.

Lemma X6_columnOffset_monotone_witness : 0 <= 1 <= 5.
Proof.
  apply (X6_columnOffset_monotone doc_emoji 0 1 3 1 5);
    [lia | reflexivity | reflexivity | lia].
Defined.

Lemma scan_runeStart (fuel : nat) :
  forall w char offset character v,
    lsp.scan fuel w char offset character = Some v ->
    0 <= v ->
    runeStart_loop fuel w offset v = true.
Proof.
  induction fuel as [|fuel IH]; intros w char offset character v H Hv; [discriminate|].
  destruct w as [|c0 p].
  - rewrite scan_nil in H. assert (v = -1) by congruence. lia.
  - rewrite scan_step in H. cbn [runeStart_loop].
    destruct (utf8.DecodeRune (c0 :: p)) as [r size].
    destruct (offset =? v) eqn:E; [reflexivity|].
    destruct (character <? char + utf16Units r).
    + assert (v = offset) by congruence. apply Z.eqb_neq in E. lia.
    + exact (IH _ _ _ _ _ H Hv).
Qed.

(** X7.  An offset returned by the column scan is the start of a rune of the
    line, reading the line's window rune by rune from its first byte, and it
    lies inside the window: the scan never stops in the middle of a
    multi-byte sequence it has decoded. *)
Theorem X7_columnOffset_rune_start
        (ls : list (list byte)) (rest : list byte) (c v : Z) :
  Forall nonl ls ->
  lsp.columnOffset (joinLines ls ++ rest) (protocol.mkPosition (len ls) c) = Some v ->
  0 <= v ->
  runeStart (lsp.window rest) v = true /\ v < len (lsp.window rest).
Proof.
  intros Hls H Hv. rewrite columnOffset_line in H by assumption. split.
  - exact (scan_runeStart _ _ _ _ _ _ H Hv).
  - destruct (lsp.window rest) as [|c0 p] eqn:Ew.
    + rewrite scan_nil in H. assert (v = -1) by congruence. lia.
    + destruct (scan_window (S (length (c0 :: p))) (c0 :: p) 0 0 c ltac:(lia))
        as (S1 & S2).
      destruct (Z.le_gt_cases (0 + utf16len (c0 :: p)) c) as [Hge|Hlt].
      * rewrite (S1 Hge) in H. assert (v = -1) by congruence. lia.
      * destruct (S2 ltac:(lia) ltac:(right; discriminate)) as (v' & Hv' & Hr).
        rewrite Hv' in H. assert (v = v') by congruence. lia.
Qed.

Lemma X7_columnOffset_rune_start_witness :
  runeStart (lsp.window doc_emoji) 5 = true /\ 5 < len (lsp.window doc_emoji).
Proof.
  apply (X7_columnOffset_rune_start [] doc_emoji 3 5);
    [constructor | reflexivity | lia].
Defined.

(** ** Surrogate pairs *)

Lemma scan_ascii_then (l1 : list byte) (x : byte) (l2 : list byte) :
  Forall ascii l1 ->
  forall fuel char offset character,
    (length (l1 ++ x :: l2) < fuel)%nat ->
    char + len l1 <= character ->
    character < char + len l1 + utf16Units (fst (utf8.DecodeRune (x :: l2))) ->
    lsp.scan fuel (l1 ++ x :: l2) char offset character = Some (offset + len l1).
Proof.
  intros Hl1. induction Hl1 as [|a l1 Ha _ IH]; intros fuel char offset c Hfuel Hlo Hhi;
    (destruct fuel as [|fuel]; [lia|]); cbn [app]; rewrite scan_step.
  - rewrite len_nil in *. destruct (utf8.DecodeRune (x :: l2)) as [r size].
    cbn [fst] in Hhi.
    destruct (c <? char + utf16Units r) eqn:E; [|apply Z.ltb_ge in E; lia].
    f_equal. lia.
  - rewrite (DecodeRune_ascii a _ Ha).
    assert (Hu : utf16Units (byteZ a) = 1).
    { unfold utf16Units, ascii in *. destruct (65536 <=? byteZ a) eqn:E; [|reflexivity].
      apply Z.leb_le in E. lia. }
    rewrite Hu. rewrite len_cons in *. pose proof (len_nonneg _ l1).
    destruct (c <? char + 1) eqn:E; [apply Z.ltb_lt in E; lia|].
    change (slice_from 1 (a :: l1 ++ x :: l2)) with (l1 ++ x :: l2).
    rewrite IH by (cbn [app length] in Hfuel; lia). f_equal. lia.
Qed.

(** X8.  On a newline-terminated line that begins with ASCII bytes [l1]
    followed by a rune from U+10000 on, both UTF-16 columns of the surrogate
    pair, [len l1] and [len l1 + 1], convert to the offset of the first byte
    of the rune: a column inside the pair is moved back to the start of the
    rune. *)
Theorem X8_inside_surrogate_pair
        (ls : list (list byte)) (l1 : list byte) (x : byte) (l2 post : list byte) :
  Forall nonl ls -> Forall ascii l1 -> nonl (l1 ++ x :: l2) ->
  0x10000 <= fst (utf8.DecodeRune (x :: l2)) ->
  lsp.columnOffset (joinLines ls ++ (l1 ++ x :: l2) ++ NL :: post)
                   (protocol.mkPosition (len ls) (len l1)) = Some (len l1) /\
  lsp.columnOffset (joinLines ls ++ (l1 ++ x :: l2) ++ NL :: post)
                   (protocol.mkPosition (len ls) (len l1 + 1)) = Some (len l1).
Proof.
  intros Hls Hl1 Hl Hr.
  rewrite !columnOffset_line by assumption. rewrite window_line by exact Hl.
  rewrite <- app_assoc. cbn [app].
  assert (Hd : utf8.DecodeRune (x :: l2 ++ [NL]) = utf8.DecodeRune (x :: l2))
    by (apply (DecodeRune_before_NL x l2 [])).
  assert (Hu : utf16Units (fst (utf8.DecodeRune (x :: l2 ++ [NL]))) = 2).
  { rewrite Hd. unfold utf16Units.
    destruct (65536 <=? fst (utf8.DecodeRune (x :: l2))) eqn:E;
      [reflexivity | apply Z.leb_gt in E; lia]. }
  split.
  - pose proof (scan_ascii_then l1 x (l2 ++ [NL]) Hl1
                  (S (length (l1 ++ x :: l2 ++ [NL]))) 0 0 (len l1)
                  ltac:(lia) ltac:(lia) ltac:(lia)) as H.
    rewrite H. f_equal.
  - pose proof (scan_ascii_then l1 x (l2 ++ [NL]) Hl1
                  (S (length (l1 ++ x :: l2 ++ [NL]))) 0 0 (len l1 + 1)
                  ltac:(lia) ltac:(lia) ltac:(lia)) as H.
    rewrite H. f_equal.
Qed.

Lemma X8_inside_surrogate_pair_witness :
  lsp.columnOffset doc_emoji (protocol.mkPosition 0 1) = Some 1 /\
  lsp.columnOffset doc_emoji (protocol.mkPosition 0 2) = Some 1.
Proof.
  apply (X8_inside_surrogate_pair [] [x61] xf0 [x9f; x99; x82; x62] []).
  - constructor.
  - constructor; [reflexivity | constructor].
  - intros H. cbn in H. intuition discriminate.
  - vm_compute. discriminate.
Defined.

(** ** Positions in byte columns *)

Lemma searchInts_nth_le (a : list Z) (x : Z) :
  0 <= token.searchInts a x -> nth (Z.to_nat (token.searchInts a x)) a 0 <= x.
Proof.
  induction a as [|y a IH]; cbn [token.searchInts]; [lia|].
  destruct (y <=? x) eqn:E; [apply Z.leb_le in E | lia]. intros _.
  pose proof (searchInts_lower a x) as Hlow.
  destruct (Z.eq_dec (token.searchInts a x) (-1)) as [Hs|Hs].
  - rewrite Hs. cbn. exact E.
  - replace (Z.to_nat (1 + token.searchInts a x))
      with (S (Z.to_nat (token.searchInts a x))) by lia.
    cbn [nth]. apply IH. lia.
Qed.

(** [Position] on the file of a text, for an offset from 0 to the size. *)
Lemma FilePosition_fileOf (b : positive) (content : list byte) (o : Z) :
  0 <= o <= len content ->
  token.FilePosition (token.fileOf b content) (Z.pos b + o)
  = Some (token.mkPosition o
            (token.searchInts (token.lines (token.fileOf b content)) o + 1)
            (o - nth (Z.to_nat (token.searchInts (token.lines (token.fileOf b content)) o))
                     (token.lines (token.fileOf b content)) 0 + 1)).
Proof.
  intros Ho. unfold token.FilePosition, token.NoPos.
  change (token.Base (token.fileOf b content)) with (Z.pos b).
  change (token.size (token.fileOf b content)) with (len content).
  destruct (Z.pos b + o =? 0) eqn:E0; [apply Z.eqb_eq in E0; lia|].
  destruct ((Z.pos b + o <? Z.pos b) || (Z.pos b + len content <? Z.pos b + o)) eqn:E1.
  { apply orb_true_iff in E1. destruct E1 as [E1|E1]; apply Z.ltb_lt in E1; lia. }
  replace (Z.pos b + o - Z.pos b) with o by lia.
  pose proof (lines_first b content o ltac:(lia)) as Hs.
  destruct (0 <=? token.searchInts (token.lines (token.fileOf b content)) o) eqn:E2;
    [reflexivity | apply Z.leb_gt in E2; lia].
Qed.

(** X9.  [fromTokenPosition] undoes the file's [Position]: for every offset of
    the document, the end of file included, the line and byte column that the
    position table reports convert back to the position of that offset. *)
Theorem X9_fromTokenPosition_roundtrip (b : positive) (content : list byte) (o : Z) :
  0 <= o <= len content ->
  exists posn,
    token.FilePosition (token.fileOf b content) (Z.pos b + o) = Some posn /\
    lsp.fromTokenPosition (source.fileOf b content) posn = Some (Z.pos b + o).
Proof.
  intros Ho. eexists. split; [apply FilePosition_fileOf, Ho|].
  unfold lsp.fromTokenPosition. cbn [token.Line token.Column].
  rewrite lineStart_lookup.
  pose proof (lines_first b content o ltac:(lia)) as Hs.
  pose proof (searchInts_upper (token.lines (token.fileOf b content)) o) as Hu.
  set (s := token.searchInts (token.lines (token.fileOf b content)) o) in *.
  unfold token.LineCount.
  destruct ((1 <=? s + 1) && (s + 1 <=? len (token.lines (token.fileOf b content)))) eqn:E.
  - replace (s + 1 - 1) with s by lia. f_equal. lia.
  - apply andb_false_iff in E. destruct E as [E|E]; apply Z.leb_gt in E; lia.
Qed.

Lemma X9_fromTokenPosition_witness :
  exists posn,
    token.FilePosition (token.fileOf 1 doc_emoji) (1 + 5) = Some posn /\
    lsp.fromTokenPosition (source.fileOf 1 doc_emoji) posn = Some (1 + 5).
Proof.
  apply (X9_fromTokenPosition_roundtrip 1 doc_emoji 5). vm_compute.
  split; discriminate.
Defined.

(** X10.  For a line that the file does not have, [fromTokenPosition] signals
    nothing: it returns [NoPos] plus the column minus one, that is, the
    number [Column - 1] itself. *)
Theorem X10_fromTokenPosition_unknown_line
        (b : positive) (content : list byte) (posn : token.Position) :
  token.Line posn < 1 \/ token.LineCount (token.fileOf b content) < token.Line posn ->
  lsp.fromTokenPosition (source.fileOf b content) posn
  = Some (token.Column posn - 1).
Proof.
  intros Hline. unfold lsp.fromTokenPosition. rewrite lineStart_lookup.
  destruct ((1 <=? token.Line posn)
            && (token.Line posn <=? token.LineCount (token.fileOf b content))) eqn:E.
  - apply andb_true_iff in E. destruct E as [E1 E2].
    apply Z.leb_le in E1. apply Z.leb_le in E2. lia.
  - reflexivity.
Qed.

Lemma X10_fromTokenPosition_unknown_witness :
  lsp.fromTokenPosition (source.fileOf 1 doc_ascii) (token.mkPosition 0 9 4)
  = Some (4 - 1).
Proof.
  apply (X10_fromTokenPosition_unknown_line 1 doc_ascii (token.mkPosition 0 9 4)).
  right. vm_compute. reflexivity.
Defined.

Lemma sinceNewline_nonl (l : list byte) :
  nonl l ->
  forall n, fold_left (fun n b => if Byte.eqb b NL then 0 else n + 1) l n = n + len l.
Proof.
  induction l as [|c l IH]; intros Hl n; cbn [fold_left].
  - rewrite len_nil. lia.
  - apply nonl_cons in Hl. destruct Hl as [Hc Hl].
    rewrite (eqb_NL_false _ Hc), IH, len_cons by exact Hl. lia.
Qed.

Lemma sinceNewline_joinLines (ls : list (list byte)) :
  Forall nonl ls ->
  forall n, ls <> [] ->
    fold_left (fun n b => if Byte.eqb b NL then 0 else n + 1) (joinLines ls) n = 0.
Proof.
  induction 1 as [|l ls Hl Hls IH]; intros n Hne; [congruence|].
  rewrite joinLines_cons, fold_left_app, (sinceNewline_nonl l Hl).
  cbn [fold_left]. rewrite (Byte.byte_dec_lb eq_refl).
  destruct ls as [|l' ls']; [reflexivity|]. apply IH. discriminate.
Qed.

Lemma sinceNewline_lines (ls : list (list byte)) (l1 : list byte) :
  Forall nonl ls -> nonl l1 -> sinceNewline (joinLines ls ++ l1) = len l1.
Proof.
  intros Hls Hl1. unfold sinceNewline. rewrite fold_left_app.
  destruct ls as [|l ls'].
  - cbn [joinLines map concat fold_left]. rewrite (sinceNewline_nonl l1 Hl1). lia.
  - rewrite sinceNewline_joinLines by (assumption || discriminate).
    rewrite (sinceNewline_nonl l1 Hl1). lia.
Qed.

(** X11.  The protocol position of the offset of a byte is counted in bytes:
    its line is the number of newlines before the offset and its character
    the number of bytes between the last of them and the offset, whatever
    runes those bytes encode. *)
Theorem X11_toProtocolPosition_counts_bytes
        (b : positive) (content : list byte) (o : Z) :
  0 <= o < len content ->
  lsp.toProtocolPosition (token.fileOf b content) (Z.pos b + o)
  = Some (protocol.mkPosition (newlines (slice_to o content))
                              (sinceNewline (slice_to o content))).
Proof.
  intros Ho.
  destruct (offset_decompose content o Ho) as (ls & l1 & x & l2 & Hls & Hl1 & -> & ->).
  rewrite toProtocolPosition_line by assumption.
  assert (Hs : slice_to (len (joinLines ls) + len l1) (joinLines ls ++ l1 ++ x :: l2)
               = joinLines ls ++ l1).
  { unfold slice_to. rewrite app_assoc.
    replace (Z.to_nat (len (joinLines ls) + len l1)) with (length (joinLines ls ++ l1))
      by (rewrite length_app; unfold len; lia).
    rewrite firstn_app, firstn_all, Nat.sub_diag. cbn. apply app_nil_r. }
  rewrite Hs, newlines_app, newlines_joinLines, newlines_nonl, sinceNewline_lines
    by assumption.
  rewrite Z.add_0_r. reflexivity.
Qed.

Lemma X11_toProtocolPosition_witness :
  lsp.toProtocolPosition (token.fileOf 1 doc_emoji) (1 + 5)
  = Some (protocol.mkPosition (newlines (slice_to 5 doc_emoji))
                              (sinceNewline (slice_to 5 doc_emoji))).
Proof.
  apply (X11_toProtocolPosition_counts_bytes 1 doc_emoji 5). vm_compute.
  split; [discriminate | reflexivity].
Defined.

Lemma toProtocolPosition_fileOf (b : positive) (content : list byte) (o : Z) :
  0 <= o <= len content ->
  lsp.toProtocolPosition (token.fileOf b content) (Z.pos b + o)
  = Some (protocol.mkPosition
            (token.searchInts (token.lines (token.fileOf b content)) o)
            (o - nth (Z.to_nat (token.searchInts (token.lines (token.fileOf b content)) o))
                     (token.lines (token.fileOf b content)) 0)).
Proof.
  intros Ho. unfold lsp.toProtocolPosition, token.IsValid, token.NoPos.
  destruct (Z.pos b + o =? 0) eqn:E0; [apply Z.eqb_eq in E0; lia|]. cbn [negb].
  rewrite FilePosition_fileOf by exact Ho. cbn [token.Line token.Column].
  apply f_equal. apply f_equal2; lia.
Qed.

(** X12.  For every offset of the document, the end of file included,
    [toProtocolPosition] returns a position with a line from 0 to below the
    line count and a character from 0 to the offset: never the sentinel
    (-1, -1). *)
Theorem X12_toProtocolPosition_in_range (b : positive) (content : list byte) (o : Z) :
  0 <= o <= len content ->
  exists p,
    lsp.toProtocolPosition (token.fileOf b content) (Z.pos b + o) = Some p /\
    0 <= protocol.Line p < token.LineCount (token.fileOf b content) /\
    0 <= protocol.Character p <= o.
Proof.
  intros Ho. eexists. split; [apply toProtocolPosition_fileOf, Ho|].
  cbn [protocol.Line protocol.Character].
  pose proof (lines_first b content o ltac:(lia)) as Hs.
  pose proof (searchInts_upper (token.lines (token.fileOf b content)) o) as Hu.
  pose proof (searchInts_nth_le _ _ Hs) as Hle.
  unfold token.LineCount. split; [lia|]. split; [lia|].
  assert (Hin : In (nth (Z.to_nat (token.searchInts (token.lines (token.fileOf b content)) o))
                        (token.lines (token.fileOf b content)) 0)
                   (token.lines (token.fileOf b content)))
    by (apply nth_In; unfold len in Hu; lia).
  cbn [token.fileOf token.lines] in Hin. destruct Hin as [Hin|Hin].
  - cbn [token.fileOf token.lines] in *. lia.
  - pose proof (lineTable_above content 0) as Ha. rewrite Forall_forall in Ha.
    specialize (Ha _ Hin). cbn [token.fileOf token.lines] in *. cbv beta in Ha. lia.
Qed.

Lemma X12_toProtocolPosition_witness :
  exists p,
    lsp.toProtocolPosition (token.fileOf 1 doc_ascii) (1 + 8) = Some p /\
    0 <= protocol.Line p < token.LineCount (token.fileOf 1 doc_ascii) /\
    0 <= protocol.Character p <= 8.
Proof.
  apply (X12_toProtocolPosition_in_range 1 doc_ascii 8). vm_compute.
  split; discriminate.
Defined.

Lemma toProtocolPosition_inj (b : positive) (content : list byte) (o1 o2 : Z) :
  0 <= o1 <= len content -> 0 <= o2 <= len content ->
  lsp.toProtocolPosition (token.fileOf b content) (Z.pos b + o1)
  = lsp.toProtocolPosition (token.fileOf b content) (Z.pos b + o2) ->
  o1 = o2.
Proof.
  intros H1 H2. rewrite !toProtocolPosition_fileOf by assumption.
  intros H. injection H as Hs Hc. rewrite Hs in Hc. lia.
Qed.

(** X13.  Two different offsets of the document, the end of file included,
    never get the same protocol position. *)
Theorem X13_toProtocolPosition_injective
        (b : positive) (content : list byte) (o1 o2 : Z) :
  0 <= o1 <= len content -> 0 <= o2 <= len content -> o1 <> o2 ->
  lsp.toProtocolPosition (token.fileOf b content) (Z.pos b + o1)
  <> lsp.toProtocolPosition (token.fileOf b content) (Z.pos b + o2).
Proof.
  intros H1 H2 Hne H. apply Hne. exact (toProtocolPosition_inj b content o1 o2 H1 H2 H).
Qed.

Lemma X13_toProtocolPosition_injective_witness :
  lsp.toProtocolPosition (token.fileOf 1 doc_ascii) (1 + 3)
  <> lsp.toProtocolPosition (token.fileOf 1 doc_ascii) (1 + 4).
Proof.
  apply (X13_toProtocolPosition_injective 1 doc_ascii 3 4);
    [vm_compute; split; discriminate | vm_compute; split; discriminate | lia].
Defined.

(** ** Ranges *)

Lemma roundtrip_ascii_doc (b : positive) (content : list byte) (o : Z) :
  Forall ascii content -> 0 <= o < len content ->
  exists p,
    lsp.toProtocolPosition (token.fileOf b content) (Z.pos b + o) = Some p /\
    0 <= protocol.Line p /\
    lsp.fromProtocolPosition (source.fileOf b content) p = Some (Z.pos b + o).
Proof.
  intros Hascii Ho.
  destruct (offset_decompose content o Ho) as (ls & l1 & x & l2 & Hls & Hl1 & -> & ->).
  exists (protocol.mkPosition (len ls) (len l1)).
  split; [apply toProtocolPosition_line; assumption|].
  split; [cbn [protocol.Line]; apply len_nonneg|].
  assert (HF : Forall ascii l1).
  { apply Forall_app in Hascii. destruct Hascii as [_ Hascii].
    apply Forall_app in Hascii. tauto. }
  rewrite fromProtocolPosition_line; [|assumption | destruct l1; discriminate].
  destruct (window_prefix l1 x l2 Hl1) as [w2 ->].
  pose proof (scan_ascii_prefix l1 x w2 HF (S (length (l1 ++ x :: w2))) 0 0
                ltac:(lia)) as Hs.
  rewrite !Z.add_0_l in Hs. rewrite Hs. f_equal. lia.
Qed.

(** X14.  On an ASCII document a source range survives the trip through the
    protocol: a range from the offset of a byte to the offset of a byte, and
    an open range whose end is [NoPos], convert to a protocol range that
    converts back to the same source range. *)
Theorem X14_range_roundtrip_ascii (b : positive) (content : list byte) (o1 : Z) :
  Forall ascii content -> 0 <= o1 < len content ->
  (exists pr,
      lsp.toProtocolRange (token.fileOf b content)
                          (source.mkRange (Z.pos b + o1) token.NoPos) = Some pr /\
      lsp.fromProtocolRange (source.fileOf b content) pr
      = Some (source.mkRange (Z.pos b + o1) token.NoPos)) /\
  (forall o2,
      0 <= o2 < len content ->
      exists pr,
        lsp.toProtocolRange (token.fileOf b content)
                            (source.mkRange (Z.pos b + o1) (Z.pos b + o2)) = Some pr /\
        lsp.fromProtocolRange (source.fileOf b content) pr
        = Some (source.mkRange (Z.pos b + o1) (Z.pos b + o2))).
Proof.
  intros Hascii Ho1.
  destruct (roundtrip_ascii_doc b content o1 Hascii Ho1) as (p1 & Hp1 & HL1 & Hb1).
  split.
  - exists (protocol.mkRange p1 (protocol.mkPosition (-1) (-1))). split.
    + unfold lsp.toProtocolRange. cbn [source.Start source.End]. rewrite Hp1. reflexivity.
    + unfold lsp.fromProtocolRange, lsp.fromProtocolRangeC, lsp.fromProtocolPositionC.
      cbn [protocol.Start protocol.End]. rewrite Hb1.
      destruct (protocol.Position_eqb (protocol.mkPosition (-1) (-1)) p1) eqn:E.
      * apply Position_eqb_eq in E. subst p1. cbn in HL1. lia.
      * reflexivity.
  - intros o2 Ho2.
    destruct (roundtrip_ascii_doc b content o2 Hascii Ho2) as (p2 & Hp2 & HL2 & Hb2).
    exists (protocol.mkRange p1 p2). split.
    + unfold lsp.toProtocolRange. cbn [source.Start source.End]. rewrite Hp1, Hp2.
      reflexivity.
    + unfold lsp.fromProtocolRange, lsp.fromProtocolRangeC, lsp.fromProtocolPositionC.
      cbn [protocol.Start protocol.End]. rewrite Hb1.
      destruct (protocol.Position_eqb p2 p1) eqn:E.
      * apply Position_eqb_eq in E. subst p2.
        assert (o1 = o2)
          by (apply (toProtocolPosition_inj b content); [lia | lia | congruence]).
        subst o2. reflexivity.
      * destruct (protocol.Line p2 <? 0) eqn:E2; [apply Z.ltb_lt in E2; lia|].
        rewrite Hb2. reflexivity.
Qed.

Lemma X14_range_roundtrip_witness :
  exists pr,
    lsp.toProtocolRange (token.fileOf 1 doc_ascii)
                        (source.mkRange (1 + 1) (1 + 5)) = Some pr /\
    lsp.fromProtocolRange (source.fileOf 1 doc_ascii) pr
    = Some (source.mkRange (1 + 1) (1 + 5)).
Proof.
  assert (Ha : Forall ascii doc_ascii) by (repeat constructor).
  assert (Ho : 0 <= 1 < len doc_ascii) by (vm_compute; split; [discriminate | reflexivity]).
  destruct (X14_range_roundtrip_ascii 1 doc_ascii 1 Ha Ho) as [_ H].
  apply (H 5). vm_compute. split; [discriminate | reflexivity].
Defined.

(** X15.  The absent range does not survive the trip: [NoPos, NoPos] becomes
    the protocol range with both ends at (-1, -1), and that range, taken by
    the case [r.End == r.Start] of the switch, converts to the source range
    [-1, -1], whose ends are not [NoPos]. *)
Theorem X15_absent_range_roundtrip (b : positive) (content : list byte) :
  lsp.toProtocolRange (token.fileOf b content) (source.mkRange token.NoPos token.NoPos)
  = Some (protocol.mkRange (protocol.mkPosition (-1) (-1)) (protocol.mkPosition (-1) (-1))) /\
  lsp.fromProtocolRange (source.fileOf b content)
    (protocol.mkRange (protocol.mkPosition (-1) (-1)) (protocol.mkPosition (-1) (-1)))
  = Some (source.mkRange (-1) (-1)) /\
  token.IsValid (-1) = true.
Proof.
  split; [reflexivity|]. split; [|reflexivity].
  destruct (position_outside_document b content (protocol.mkPosition (-1) (-1))
              ltac:(left; cbn; lia)) as (_ & _ & H & _).
  unfold lsp.fromProtocolRange, lsp.fromProtocolRangeC, lsp.fromProtocolPositionC.
  cbn [protocol.Start protocol.End]. rewrite H. reflexivity.
Qed.

(** ** The conversion stays inside the document *)

Lemma scan_range (w : list byte) (c : Z) :
  exists v,
    lsp.scan (S (length w)) w 0 0 c = Some v /\ (v = -1 \/ 0 <= v < len w).
Proof.
  destruct w as [|c0 p].
  - exists (-1). split; [reflexivity | left; reflexivity].
  - destruct (scan_window (S (length (c0 :: p))) (c0 :: p) 0 0 c ltac:(lia)) as (S1 & S2).
    destruct (Z.le_gt_cases (0 + utf16len (c0 :: p)) c) as [Hge|Hlt].
    + exists (-1). split; [exact (S1 Hge) | left; reflexivity].
    + destruct (S2 ltac:(lia) ltac:(right; discriminate)) as (v & Hv & Hr).
      exists v. split; [exact Hv | right; lia].
Qed.

(** A line number from 0 to the number of newlines is the line of a
    newline-terminated line, or the last line. *)
Lemma line_cases (content : list byte) (k : Z) :
  0 <= k <= newlines content ->
  (exists ls l post,
      Forall nonl ls /\ nonl l /\ content = joinLines ls ++ l ++ NL :: post /\ len ls = k) \/
  (exists ls l,
      Forall nonl ls /\ nonl l /\ content = joinLines ls ++ l /\ len ls = k).
Proof.
  intros Hk.
  destruct (split_lines content) as (ls0 & l1 & Hls0 & Hl1 & ->).
  rewrite newlines_app, newlines_joinLines, newlines_nonl in Hk by assumption.
  destruct (Z.eq_dec k (len ls0)) as [->|Hne].
  - right. exists ls0, l1. repeat split; assumption.
  - left. unfold len in *.
    destruct (nth_split ls0 [] (n := Z.to_nat k) ltac:(lia)) as (la & lb & E & Hla).
    set (l := nth (Z.to_nat k) ls0 []) in *. clearbody l. subst ls0.
    apply Forall_app in Hls0. destruct Hls0 as [Ha Hb].
    apply Forall_cons_iff in Hb. destruct Hb as [Hl Hb].
    exists la, l, (joinLines lb ++ l1). split; [assumption|]. split; [assumption|].
    split; [|lia].
    rewrite joinLines_app, joinLines_cons, <- !app_assoc. reflexivity.
Qed.

(** X16.  [fromProtocolPosition] always returns, and what it returns is at
    least -1 and below the position of the end of the file: the end-of-file
    position, and anything past it, is never produced. *)
Theorem X16_fromProtocolPosition_below_eof
        (b : positive) (content : list byte) (pos : protocol.Position) :
  exists p,
    lsp.fromProtocolPosition (source.fileOf b content) pos = Some p /\
    -1 <= p < Z.pos b + len content.
Proof.
  pose proof (len_nonneg _ content) as Hlen.
  destruct (Z.lt_ge_cases (protocol.Line pos) 0) as [Hneg|Hnn].
  { destruct (position_outside_document b content pos (or_introl Hneg)) as (_ & _ & H & _).
    exists (-1). split; [exact H | lia]. }
  destruct (Z.lt_ge_cases (newlines content) (protocol.Line pos)) as [Hbig|Hin].
  { destruct (position_outside_document b content pos (or_intror Hbig)) as (_ & _ & H & _).
    exists (-1). split; [exact H | lia]. }
  destruct pos as [k c]. cbn [protocol.Line] in *.
  destruct (line_cases content k ltac:(lia))
    as [(ls & l & post & Hls & Hl & -> & <-) | (ls & l & Hls & Hl & -> & <-)].
  - rewrite fromProtocolPosition_line; [|assumption | destruct l; discriminate].
    rewrite window_line by exact Hl.
    destruct (scan_range (l ++ [NL]) c) as (v & -> & Hv).
    eexists. split; [reflexivity|].
    rewrite !len_app, !len_cons, len_nil in *.
    pose proof (len_nonneg _ (joinLines ls)). pose proof (len_nonneg _ l).
    pose proof (len_nonneg _ post). lia.
  - destruct l as [|c0 l'].
    + rewrite app_nil_r in *. destruct ls as [|l0 ls'].
      * exists (Z.pos b - 1).
        split; [|unfold len; cbn [joinLines map concat length]; lia].
        unfold lsp.fromProtocolPosition. cbn [protocol.Line joinLines map concat].
        rewrite lineStart_empty. reflexivity.
      * destruct (line_after_final_newline b (l0 :: ls') c Hls ltac:(discriminate))
          as (_ & _ & H).
        exists (-1). split; [exact H | lia].
    + rewrite fromProtocolPosition_line; [|assumption | discriminate].
      rewrite window_nonl by exact Hl.
      destruct (scan_range (c0 :: l') c) as (v & -> & Hv).
      eexists. split; [reflexivity|].
      rewrite !len_app in *. pose proof (len_nonneg _ (joinLines ls)).
      pose proof (len_nonneg _ (c0 :: l')). lia.
Qed.

(** ** Line starts, locality, and the byte-column path *)

(** X17.  Column 0, and any negative column, of a line that has at least one
    byte (its newline counts) converts to the start of the line, the
    position that [lineStart] returns for it. *)
Theorem X17_column_zero_is_line_start
        (b : positive) (ls : list (list byte)) (rest : list byte) (c : Z) :
  Forall nonl ls -> rest <> [] -> c <= 0 ->
  lsp.columnOffset (joinLines ls ++ rest) (protocol.mkPosition (len ls) c) = Some 0 /\
  lsp.fromProtocolPosition (source.fileOf b (joinLines ls ++ rest))
                           (protocol.mkPosition (len ls) c)
  = lsp.lineStart (source.fileOf b (joinLines ls ++ rest)) (len ls + 1).
Proof.
  intros Hls Hrest Hc.
  rewrite fromProtocolPosition_line, columnOffset_line, lineStart_line by assumption.
  destruct rest as [|x l2]; [congruence|].
  destruct (window_prefix [] x l2 (fun H => H)) as [w2 Hw]. cbn [app] in Hw.
  rewrite Hw. cbn [length]. rewrite scan_step.
  destruct (utf8.DecodeRune (x :: w2)) as [r size].
  pose proof (utf16Units_range r).
  destruct (c <? 0 + utf16Units r) eqn:E; [|apply Z.ltb_ge in E; lia].
  split; [reflexivity | f_equal; lia].
Qed.

Lemma X17_column_zero_witness :
  lsp.columnOffset doc_ascii (protocol.mkPosition 1 0) = Some 0 /\
  lsp.fromProtocolPosition (source.fileOf 1 doc_ascii) (protocol.mkPosition 1 0)
  = lsp.lineStart (source.fileOf 1 doc_ascii) (1 + 1).
Proof.
  apply (X17_column_zero_is_line_start 1 [[x61; x62; x63]] [x64; x65; x66; x0a] 0).
  - exact nonl_lines_abc.
  - discriminate.
  - lia.
Defined.

(** X18.  On an ASCII line closed by a newline the UTF-16 path and the
    byte-column path agree: for every column from 0 to the length of the
    line, [fromProtocolPosition] at (line, column) and [fromTokenPosition] at
    (line + 1, column + 1) return the same position, the line start plus the
    column. *)
Theorem X18_ascii_line_paths_agree
        (b : positive) (ls : list (list byte)) (l post : list byte) (c : Z) :
  Forall nonl ls -> nonl l -> Forall ascii l -> 0 <= c <= len l ->
  lsp.fromProtocolPosition (source.fileOf b (joinLines ls ++ l ++ NL :: post))
                           (protocol.mkPosition (len ls) c)
  = Some (Z.pos b + (len (joinLines ls) + c)) /\
  lsp.fromTokenPosition (source.fileOf b (joinLines ls ++ l ++ NL :: post))
                        (token.mkPosition (len (joinLines ls) + c) (len ls + 1) (c + 1))
  = Some (Z.pos b + (len (joinLines ls) + c)).
Proof.
  intros Hls Hl Hascii Hc.
  assert (Hne : l ++ NL :: post <> []) by (destruct l; discriminate).
  split.
  - rewrite fromProtocolPosition_line by assumption. rewrite window_line by exact Hl.
    pose proof (firstn_skipn (Z.to_nat c) (l ++ [NL])) as Hsplit.
    assert (Hfl : length (firstn (Z.to_nat c) (l ++ [NL])) = Z.to_nat c).
    { rewrite length_firstn, length_app. unfold len in Hc. cbn [length]. lia. }
    destruct (skipn (Z.to_nat c) (l ++ [NL])) as [|x tail] eqn:Es.
    { pose proof (length_skipn (Z.to_nat c) (l ++ [NL])) as Hk. rewrite Es in Hk.
      rewrite length_app in Hk. unfold len in Hc. cbn [length] in Hk. lia. }
    assert (HF : Forall ascii (firstn (Z.to_nat c) (l ++ [NL]) ++ x :: tail)).
    { rewrite Hsplit. apply Forall_app. split; [exact Hascii|].
      constructor; [reflexivity | constructor]. }
    apply Forall_app in HF. destruct HF as [HF _].
    pose proof (scan_ascii_prefix _ x tail HF (S (length (l ++ [NL]))) 0 0
                  ltac:(rewrite Hsplit; lia)) as Hs.
    rewrite Hsplit in Hs. unfold len in Hs at 1 2. rewrite Hfl in Hs.
    rewrite !Z.add_0_l, Z2Nat.id in Hs by lia. rewrite Hs. f_equal. lia.
  - unfold lsp.fromTokenPosition. cbn [token.Line token.Column].
    rewrite lineStart_line by assumption. f_equal. lia.
Qed.

Lemma X18_ascii_line_paths_witness :
  lsp.fromProtocolPosition (source.fileOf 1 doc_ascii) (protocol.mkPosition 1 3)
  = Some (1 + (4 + 3)) /\
  lsp.fromTokenPosition (source.fileOf 1 doc_ascii) (token.mkPosition (4 + 3) (1 + 1) (3 + 1))
  = Some (1 + (4 + 3)).
Proof.
  apply (X18_ascii_line_paths_agree 1 [[x61; x62; x63]] [x64; x65; x66] [] 3).
  - exact nonl_lines_abc.
  - intros H. cbn in H. intuition discriminate.
  - repeat constructor.
  - vm_compute. split; discriminate.
Defined.

(** X19.  The column scan is local to its line: on a line closed by a newline
    the result depends neither on the lines before it nor on anything after
    its newline, and equals the result on the line taken alone. *)
Theorem X19_columnOffset_local
        (ls : list (list byte)) (l post : list byte) (c : Z) :
  Forall nonl ls -> nonl l ->
  lsp.columnOffset (joinLines ls ++ l ++ NL :: post) (protocol.mkPosition (len ls) c)
  = lsp.columnOffset (l ++ [NL]) (protocol.mkPosition 0 c).
Proof.
  intros Hls Hl. rewrite columnOffset_line by assumption.
  pose proof (columnOffset_line [] (l ++ [NL]) c (Forall_nil _)) as H0.
  cbn [joinLines map concat app] in H0. rewrite len_nil in H0. rewrite H0.
  rewrite !window_line by exact Hl. reflexivity.
Qed.

Lemma X19_columnOffset_local_witness :
  lsp.columnOffset doc_ascii (protocol.mkPosition 1 2)
  = lsp.columnOffset [x64; x65; x66; x0a] (protocol.mkPosition 0 2).
Proof.
  apply (X19_columnOffset_local [[x61; x62; x63]] [x64; x65; x66] [] 2).
  - exact nonl_lines_abc.
  - intros H. cbn in H. intuition discriminate.
Defined.

(** ** The sentinel position *)




